(** * resume_to_pdf: the markdown-dialect parser and its inline normalizer

    A shallow embedding of [src/resume_to_pdf.py].  Python [str] values are
    modelled as [string]s over 8-bit characters, read as the code points
    0..255.  On that range [str.strip], [str.rstrip] and [str.lower] are
    modelled exactly; [str.upper] is exact except for the three code points
    whose upper-case form leaves the range (181, 223, 255), which are left
    unchanged.  Regular expressions are embedded pattern by pattern, each
    matcher following the backtracking order of the [re] module.  The
    layout library is a collaborator: whether its [Paragraph] constructor
    accepts a text, what its document builder does to the file system and
    whether the last [print] returns are parameters of the program. *)

From Stdlib Require Import Bool Arith ZArith Lia List Ascii String.
Import ListNotations.

Local Open Scope bool_scope.

(* ================================================================== *)
(** ** Characters *)

Definition newline : ascii := "010"%char.
Definition dquote : ascii := "034"%char.

Definition code (c : ascii) : nat := nat_of_ascii c.

(** [str.isspace] on the code points below 256: TAB..CR, FS..US, space,
    NEL and NBSP. *)
Definition is_space (c : ascii) : bool :=
  let n := code c in
  ((9 <=? n) && (n <=? 13)) || ((28 <=? n) && (n <=? 32))
  || (n =? 133) || (n =? 160).

(** [str.lower] on one code point: A-Z and the Latin-1 capitals 192..222
    except the multiplication sign 215. *)
Definition lower_char (c : ascii) : ascii :=
  let n := code c in
  if ((65 <=? n) && (n <=? 90))
     || ((192 <=? n) && (n <=? 222) && negb (n =? 215))
  then ascii_of_nat (n + 32) else c.

(** [str.upper] on one code point: a-z and the Latin-1 small letters
    224..254 except the division sign 247. *)
Definition upper_char (c : ascii) : ascii :=
  let n := code c in
  if ((97 <=? n) && (n <=? 122))
     || ((224 <=? n) && (n <=? 254) && negb (n =? 247))
  then ascii_of_nat (n - 32) else c.

Local Open Scope string_scope.

(* ================================================================== *)
(** ** The [str] methods the program uses *)

Fixpoint map_string (f : ascii -> ascii) (s : string) : string :=
  match s with
  | EmptyString => EmptyString
  | String c s' => String (f c) (map_string f s')
  end.

Definition upper (s : string) : string := map_string upper_char s.
Definition lower (s : string) : string := map_string lower_char s.

Definition is_empty (s : string) : bool :=
  match s with EmptyString => true | _ => false end.

(** [s.startswith(p)] *)
Fixpoint startswith (p s : string) : bool :=
  match p with
  | EmptyString => true
  | String a p' =>
      match s with
      | EmptyString => false
      | String c s' => Ascii.eqb a c && startswith p' s'
      end
  end.

(** [p in s] *)
Fixpoint contains (p s : string) : bool :=
  startswith p s ||
  match s with
  | EmptyString => false
  | String _ s' => contains p s'
  end.

(** [s[n:]] *)
Fixpoint drop (n : nat) (s : string) : string :=
  match n, s with
  | S k, String _ s' => drop k s'
  | _, _ => s
  end.

(** Removal of the leading, trailing and surrounding characters that
    satisfy [p]: [lstrip], [rstrip] and [strip] with [p := is_space],
    [strip('*')] with [p := is_star]. *)
Fixpoint lstrip_by (p : ascii -> bool) (s : string) : string :=
  match s with
  | String c s' => if p c then lstrip_by p s' else s
  | EmptyString => EmptyString
  end.

Fixpoint rstrip_by (p : ascii -> bool) (s : string) : string :=
  match s with
  | EmptyString => EmptyString
  | String c s' =>
      let r := rstrip_by p s' in
      if p c && is_empty r then EmptyString else String c r
  end.

Definition strip_by (p : ascii -> bool) (s : string) : string :=
  lstrip_by p (rstrip_by p s).

Definition is_star (c : ascii) : bool := Ascii.eqb c "*".

Definition rstrip : string -> string := rstrip_by is_space.
Definition strip : string -> string := strip_by is_space.
Definition strip_stars : string -> string := strip_by is_star.

(** [s.replace('|', '&nbsp;|&nbsp;')] *)
Fixpoint replace_pipe (s : string) : string :=
  match s with
  | EmptyString => EmptyString
  | String c s' =>
      if Ascii.eqb c "|" then "&nbsp;|&nbsp;" ++ replace_pipe s'
      else String c (replace_pipe s')
  end.

(** [s.split('\n')]: always at least one field. *)
Fixpoint split_lines (s : string) : list string :=
  match s with
  | EmptyString => [EmptyString]
  | String c s' =>
      if Ascii.eqb c newline then EmptyString :: split_lines s'
      else match split_lines s' with
           | l :: ls => String c l :: ls
           | [] => [String c EmptyString]
           end
  end.

(* ================================================================== *)
(** ** Regular-expression building blocks *)

(** A greedy negated class [[^x]*] followed by a literal that the class
    excludes: the run is maximal, since giving a character back leaves a
    character the literal cannot match.  Returns the run and the rest. *)
Fixpoint span (p : ascii -> bool) (s : string) : string * string :=
  match s with
  | String c s' =>
      if p c then let (a, b) := span p s' in (String c a, b)
      else (EmptyString, s)
  | EmptyString => (EmptyString, EmptyString)
  end.

(** The lazy tail of [.+?] followed by the literal [d]: the shortest
    newline-free text after which [d] stands.  Returns that text and what
    follows [d]. *)
Fixpoint lazy_until (d : string) (s : string) : option (string * string) :=
  if startswith d s then Some (EmptyString, drop (length d) s)
  else match s with
       | EmptyString => None
       | String c s' =>
           if Ascii.eqb c newline then None
           else match lazy_until d s' with
                | Some (a, r) => Some (String c a, r)
                | None => None
                end
       end.

(** [$] without MULTILINE: the end of the string, or just before a
    newline that ends the string. *)
Definition at_end (s : string) : bool :=
  match s with
  | EmptyString => true
  | String c EmptyString => Ascii.eqb c newline
  | _ => false
  end.

Definition not_rbracket (c : ascii) : bool := negb (Ascii.eqb c "]").
Definition not_rparen (c : ascii) : bool := negb (Ascii.eqb c ")").
Definition not_star (c : ascii) : bool := negb (Ascii.eqb c "*").

(** [\[([^\]]+)\]\(([^)]+)\)] tried at the start of [s]: the label, the
    target and the text after the match. *)
Definition link_at (s : string) : option (string * string * string) :=
  if startswith "[" s then
    let (label, s2) := span not_rbracket (drop 1 s) in
    if is_empty label then None
    else if startswith "](" s2 then
      let (url, s4) := span not_rparen (drop 2 s2) in
      if is_empty url then None
      else if startswith ")" s4 then Some (label, url, drop 1 s4)
      else None
    else None
  else None.

(** [(.+?)d] after the opening marker has been consumed: [.] takes one
    character that is not a newline, then the lazy tail runs. *)
Definition lazy_group (d : string) (s : string) : option (string * string) :=
  match s with
  | EmptyString => None
  | String c s' =>
      if Ascii.eqb c newline then None
      else match lazy_until d s' with
           | Some (a, r) => Some (String c a, r)
           | None => None
           end
  end.

(** [\*\*(.+?)\*\*] tried at the start of [s]: group 1 and the text after
    the match. *)
Definition bold_at (s : string) : option (string * string) :=
  if startswith "**" s then lazy_group "**" (drop 2 s) else None.

(** [\*(.+?)\*] tried at the start of [s]. *)
Definition italic_at (s : string) : option (string * string) :=
  if startswith "*" s then lazy_group "*" (drop 1 s) else None.

(** [re.sub] for a pattern that never matches the empty string: scan from
    the left; where the pattern matches, emit the replacement and go on
    after the match, otherwise copy one character.  [fuel] bounds the
    number of scan positions; the length of the text is always enough
    (see [resub_fuel]). *)
Fixpoint resub_fuel {G : Type} (at_ : string -> option (G * string))
    (repl : G -> string) (fuel : nat) (s : string) : string :=
  match fuel with
  | 0 => s
  | S f =>
      match s with
      | EmptyString => EmptyString
      | String c s' =>
          match at_ s with
          | Some (g, rest) => repl g ++ resub_fuel at_ repl f rest
          | None => String c (resub_fuel at_ repl f s')
          end
      end
  end.

Definition resub {G : Type} (at_ : string -> option (G * string))
    (repl : G -> string) (s : string) : string :=
  resub_fuel at_ repl (length s) s.

(* ================================================================== *)
(** ** Theme and inline normalizer *)

Definition THEME_accent : string := "#2d6a8f".

Definition link_at' (s : string) : option ((string * string) * string) :=
  match link_at s with
  | Some (label, url, rest) => Some ((label, url), rest)
  | None => None
  end.

(** [<a href="\2" color="#2d6a8f">\1</a>] *)
Definition link_repl (g : string * string) : string :=
  let (label, url) := g in
  "<a href=" ++ String dquote url ++ String dquote " color="
  ++ String dquote THEME_accent ++ String dquote ">" ++ label ++ "</a>".

Definition bold_repl (g : string) : string := "<b>" ++ g ++ "</b>".
Definition italic_repl (g : string) : string := "<i>" ++ g ++ "</i>".

Definition sub_link : string -> string := resub link_at' link_repl.
Definition sub_bold : string -> string := resub bold_at bold_repl.
Definition sub_italic : string -> string := resub italic_at italic_repl.

(** The negative lookahead [(?!amp;|lt;|gt;|quot;|#)]. *)
Definition entity_ahead (s : string) : bool :=
  startswith "amp;" s || startswith "lt;" s || startswith "gt;" s
  || startswith "quot;" s || startswith "#" s.

(** [re.sub(r'&(?!amp;|lt;|gt;|quot;|#)', '&amp;', text)] *)
Fixpoint escape_amp (s : string) : string :=
  match s with
  | EmptyString => EmptyString
  | String c s' =>
      if Ascii.eqb c "&" && negb (entity_ahead s')
      then "&amp;" ++ escape_amp s'
      else String c (escape_amp s')
  end.

Definition md_inline (text : string) : string :=
  let text := sub_link text in
  let text := sub_bold text in
  let text := sub_italic text in
  escape_amp text.

(* ================================================================== *)
(** ** Line patterns of the classifier *)

(** [-*$] after the three leading hyphens of [^-{3,}$]. *)
Fixpoint hyphens_to_end (s : string) : bool :=
  match s with
  | EmptyString => true
  | String c s' =>
      if Ascii.eqb c "-" then hyphens_to_end s' else at_end s
  end.

(** [re.match(r'^-{3,}$', s)] *)
Definition is_rule (s : string) : bool :=
  startswith "---" s && hyphens_to_end (drop 3 s).

(** [re.match(r'^\*\*[^*]+\*\*', s)] *)
Definition company_match (s : string) : bool :=
  startswith "**" s &&
  let (run, rest) := span not_star (drop 2 s) in
  negb (is_empty run) && startswith "**" rest.

(** [(.+)\*\*$] after the opening marker: the greedy group first tries to
    take one more character, and closes only where that fails. *)
Fixpoint greedy_group (s : string) : option string :=
  match s with
  | EmptyString => None
  | String c s' =>
      if Ascii.eqb c newline then None
      else match greedy_group s' with
           | Some g => Some (String c g)
           | None =>
               if startswith "**" s' && at_end (drop 2 s')
               then Some (String c EmptyString) else None
           end
  end.

(** [re.match(r'^\*\*(.+)\*\*$', s)], giving group 1. *)
Definition subtitle_match (s : string) : option string :=
  if startswith "**" s then greedy_group (drop 2 s) else None.

(** [re.match(r'^\*[^*]+\*$', s)] *)
Definition italic_line_match (s : string) : bool :=
  startswith "*" s &&
  let (run, rest) := span not_star (drop 1 s) in
  negb (is_empty run) && startswith "*" rest && at_end (drop 1 rest).

(** [re.sub(r'\[([^\]]+)\]\([^)]+\)', r'\1', line)] *)
Definition strip_links : string -> string :=
  resub link_at' (fun g : string * string => fst g).

(* ================================================================== *)
(** ** Flowables *)

Module styles.
(** The keys of the table [build_styles] returns. *)
Inductive key : Set :=
| name | subtitle | contact | section | role | company
| body | bullet | italic_label | skills.
End styles.

(** [HRFlowable] keeps the arguments the two rule builders differ in;
    the thickness is in tenths of a point. *)
Inductive flowable : Type :=
| Paragraph (text : string) (style : styles.key)
| HRFlowable (thickness : nat) (spaceBefore : option nat) (spaceAfter : nat).

Definition hr : flowable := HRFlowable 3 (Some 4) 4.
Definition thick_hr : flowable := HRFlowable 5 None 6.

(** The block kinds of the specification, read off a flowable. *)
Inductive kind : Set :=
| Title | Subtitle | ContactLine | SectionHeader | RoleHeader | CompanyLine
| ItalicLabel | Bullet | SkillsLine | Body | RuleThin | RuleThick.

Definition kind_of (f : flowable) : kind :=
  match f with
  | Paragraph _ styles.name => Title
  | Paragraph _ styles.subtitle => Subtitle
  | Paragraph _ styles.contact => ContactLine
  | Paragraph _ styles.section => SectionHeader
  | Paragraph _ styles.role => RoleHeader
  | Paragraph _ styles.company => CompanyLine
  | Paragraph _ styles.italic_label => ItalicLabel
  | Paragraph _ styles.bullet => Bullet
  | Paragraph _ styles.skills => SkillsLine
  | Paragraph _ styles.body => Body
  | HRFlowable 5 _ _ => RuleThick
  | HRFlowable _ _ _ => RuleThin
  end.

Definition text_of (f : flowable) : string :=
  match f with
  | Paragraph t _ => t
  | HRFlowable _ _ _ => EmptyString
  end.

(* ================================================================== *)
(** ** The classifier loop *)

(** The local variables of [parse_resume_md]. *)
Record state : Type := mkState {
  i : nat;
  is_header_done : bool;
  current_section : option string;
  story : list flowable
}.

Definition init : state :=
  {| i := 0; is_header_done := false; current_section := None; story := [] |}.

(** [i += n], nothing appended. *)
Definition skip (n : nat) (st : state) : state :=
  {| i := i st + n; is_header_done := is_header_done st;
     current_section := current_section st; story := story st |}.

(** [story.append(f); i += n] *)
Definition emit (f : flowable) (n : nat) (st : state) : state :=
  {| i := i st + n; is_header_done := is_header_done st;
     current_section := current_section st; story := story st ++ [f] |}.

(** The stop tests of the two continuation loops, on the raw next line. *)
Definition bullet_absorbs (l : string) : bool :=
  startswith "  " l && negb (startswith "- " (strip l)).

Definition body_absorbs (l : string) : bool :=
  negb (is_empty (strip l)) && negb (startswith "#" l)
  && negb (startswith "- " l) && negb (is_rule l)
  && negb (startswith "**" l).

(** A continuation loop over the lines after the current one: while the
    next line passes the test, [i += 1; text += ' ' + lines[i].strip()].
    Returns the text and the number of lines absorbed. *)
Fixpoint continuation (absorbs : string -> bool) (rest : list string)
    (text : string) : string * nat :=
  match rest with
  | l :: rest' =>
      if absorbs l then
        let (t, n) := continuation absorbs rest' (text ++ " " ++ strip l) in
        (t, S n)
      else (text, 0)
  | [] => (text, 0)
  end.

(** The truth value of [current_section and 'expertise' in
    current_section.lower()]. *)
Definition in_expertise (sec : option string) : bool :=
  match sec with
  | Some s => negb (is_empty s) && contains "expertise" (lower s)
  | None => false
  end.

(** One iteration of [while i < len(lines)], entered with
    [i < len(lines)]. *)
Definition step (lines : list string) (st : state) : state :=
  let line := rstrip (nth (i st) lines EmptyString) in
  if is_empty line then skip 1 st
  else if is_rule line then
    if negb (is_header_done st) then
      {| i := i st + 1; is_header_done := true;
         current_section := current_section st;
         story := story st ++ [thick_hr] |}
    else emit hr 1 st
  else if startswith "# " line && negb (startswith "## " line) then
    emit (Paragraph (md_inline (strip (drop 2 line))) styles.name) 1 st
  else if startswith "## " line then
    let sec := strip (drop 3 line) in
    {| i := i st + 1; is_header_done := is_header_done st;
       current_section := Some sec;
       story := story st ++ [Paragraph (upper sec) styles.section] |}
  else if startswith "### " line then
    emit (Paragraph (md_inline (strip (drop 4 line))) styles.role) 1 st
  else if company_match line && contains "|" line then
    emit (Paragraph (md_inline line) styles.company) 1 st
  else
    match (if is_header_done st then None else subtitle_match line) with
    | Some inner => emit (Paragraph (md_inline inner) styles.subtitle) 1 st
    | None =>
    if italic_line_match line then
      emit (Paragraph (strip (strip_stars line)) styles.italic_label) 1 st
    else if startswith "- " line then
      let (text, n) :=
        continuation bullet_absorbs (skipn (S (i st)) lines)
                     (strip (drop 2 line)) in
      emit (Paragraph ("&#8226; &nbsp;" ++ md_inline text) styles.bullet)
           (n + 1) st
    else if contains "|" line && contains "@" line then
      emit (Paragraph (replace_pipe (strip_links line)) styles.contact) 1 st
    else if in_expertise (current_section st) && contains "**" line then
      emit (Paragraph (md_inline line) styles.skills) 1 st
    else
      let (para_text, n) :=
        continuation body_absorbs (skipn (S (i st)) lines) line in
      emit (Paragraph (md_inline para_text) styles.body) (n + 1) st
    end.

(** [while i < len(lines)]: [None] when [fuel] iterations do not finish
    the loop. *)
Fixpoint loop (fuel : nat) (lines : list string) (st : state)
  : option state :=
  if (i st <? List.length lines)%nat then
    match fuel with
    | 0 => None
    | S f => loop f lines (step lines st)
    end
  else Some st.

(** The story the loop builds, leaving aside the test that the
    [Paragraph] constructor makes of each text; the call with that test
    is [parse_resume_md_raising] further down. *)
Definition parse_resume_md (md_text : string) : option (list flowable) :=
  let lines := split_lines md_text in
  option_map story (loop (List.length lines) lines init).

(* ================================================================== *)
(** ** PDF generation and the command line *)

(** What the program sees of the file system: [Path(p).exists()] and
    [Path(p).read_text(encoding="utf-8")], the latter [None] where it
    raises (a directory, undecodable bytes). *)
Record filesystem : Type := mkFs {
  path_exists : string -> bool;
  read_text : string -> option string
}.

Inductive event : Type :=
| ev_stderr (msg : string)
| ev_read_text (md_path : string)
| ev_parse (md_text : string)
| ev_build (pdf_path : string) (flowables : list flowable)
| ev_generated (pdf_path : string) (num_elements : nat).

(** How a run ends: [sys.exit(status)] or the end of the script (status
    0), an uncaught exception, which the interpreter reports on the error
    stream before it ends the process with status 1, or not at all. *)
Inductive outcome : Type :=
| Exit (status : nat)
| Raised
| Diverged.

Definition exit_status (o : outcome) : option nat :=
  match o with
  | Exit status => Some status
  | Raised => Some 1
  | Diverged => None
  end.

Record run : Type := mkRun {
  files : filesystem;
  trace : list event;
  result : outcome
}.


(** ** Ghost views of the loop, used only in statements *)

(** Whether the pattern tried by [at_] matches somewhere in [s]. *)
Fixpoint matches_in {G : Type} (at_ : string -> option (G * string))
    (s : string) : bool :=
  match s with
  | EmptyString => false
  | String _ s' =>
      match at_ s with Some _ => true | None => false end
      || matches_in at_ s'
  end.

Definition has_link : string -> bool := matches_in link_at'.
Definition has_bold : string -> bool := matches_in bold_at.
Definition has_italic : string -> bool := matches_in italic_at.

(** Number of occurrences of the character [x]. *)
Fixpoint count_char (x : ascii) (s : string) : nat :=
  match s with
  | EmptyString => 0
  | String c s' => (if Ascii.eqb c x then 1 else 0) + count_char x s'
  end.

(** A text without ampersand. *)
Fixpoint amp_free (p : string) : bool :=
  match p with
  | EmptyString => true
  | String a p' => negb (Ascii.eqb a "&") && amp_free p'
  end.



(** The flowables one iteration appended. *)
Definition emitted (lines : list string) (st : state) : list flowable :=
  skipn (List.length (story st)) (story (step lines st)).

(** The iterations of the loop as units: the index of the first line,
    the index after the last line, and the flowables appended. *)
Fixpoint units (fuel : nat) (lines : list string) (st : state)
  : list (nat * nat * list flowable) :=
  if (i st <? List.length lines)%nat then
    match fuel with
    | 0 => []
    | S f =>
        (i st, i (step lines st), emitted lines st)
        :: units f lines (step lines st)
    end
  else [].

(** The units tile the lines [lo..hi) from left to right, each covering
    at least one line and carrying at most one flowable. *)
Fixpoint tiles (lo hi : nat) (us : list (nat * nat * list flowable))
  : Prop :=
  match us with
  | [] => lo = hi
  | (s, e, bs) :: us' =>
      s = lo /\ s < e /\ e <= hi /\ List.length bs <= 1 /\ tiles e hi us'
  end.

(** The guards of the rules before the bullet rule, for a line that is
    not blank. *)
Definition before_bullet (done : bool) (line : string) : bool :=
  is_rule line
  || (startswith "# " line && negb (startswith "## " line))
  || startswith "## " line
  || startswith "### " line
  || (company_match line && contains "|" line)
  || (negb done && match subtitle_match line with
                   | Some _ => true
                   | None => false
                   end)
  || italic_line_match line.

(** The guards of the rules before the skills rule. *)
Definition before_skills (done : bool) (line : string) : bool :=
  before_bullet done line
  || startswith "- " line
  || (contains "|" line && contains "@" line).

(** The guards of every rule before the default. *)
Definition before_body (st : state) (line : string) : bool :=
  before_skills (is_header_done st) line
  || (in_expertise (current_section st) && contains "**" line).


(** The [line] of the iteration a state is about to run. *)
Definition line_at (lines : list string) (st : state) : string :=
  rstrip (nth (i st) lines EmptyString).

(** A two-line document: some text, then hyphens with a space behind. *)
Definition absorbed_rule_doc : string :=
  "Hello" ++ String newline "--- ".

(** A section header and a skills line under it. *)
Definition expertise_doc : string :=
  "## Technical Expertise" ++ String newline "**Languages:** Go, Rust".

(** A contact line whose link target holds an ampersand. *)
Definition contact_amp_line : string :=
  "[a@b.c](mailto:a@b.c?x=1&y=2) | City".

(** Every ampersand of [s] opens one of the forms the escape pass leaves
    alone. *)
Fixpoint amps_escaped (s : string) : bool :=
  match s with
  | EmptyString => true
  | String c s' =>
      (negb (Ascii.eqb c "&") || entity_ahead s') && amps_escaped s'
  end.

(** Every character of [s] passes [p]. *)
Fixpoint all_chars (p : ascii -> bool) (s : string) : bool :=
  match s with
  | EmptyString => true
  | String c s' => p c && all_chars p s'
  end.

(** A character that starts no inline pattern and needs no escape. *)
Definition plain_char (c : ascii) : bool :=
  negb (Ascii.eqb c "*") && negb (Ascii.eqb c "[")
  && negb (Ascii.eqb c "&").

(** A plain character that [.] matches. *)
Definition plain_dot (c : ascii) : bool :=
  plain_char c && negb (Ascii.eqb c newline).

Definition plain : string -> bool := all_chars plain_char.

(** The characters of a group that [.+?] closes at the next asterisk. *)
Definition group_char (c : ascii) : bool :=
  negb (Ascii.eqb c "*") && negb (Ascii.eqb c newline).

(** Plain characters that may stand in a link label and in a link
    target. *)
Definition plain_label (c : ascii) : bool := plain_char c && not_rbracket c.
Definition plain_target (c : ascii) : bool := plain_char c && not_rparen c.

(** ** Ghost views of stories, used only in statements *)

(** A line that the loop skips when it meets it. *)
Definition is_blank (l : string) : bool := is_empty (rstrip l).

Definition is_hr (f : flowable) : bool :=
  match f with
  | HRFlowable _ _ _ => true
  | Paragraph _ _ => false
  end.

Definition style_eqb (a b : styles.key) : bool :=
  match a, b with
  | styles.name, styles.name | styles.subtitle, styles.subtitle
  | styles.contact, styles.contact | styles.section, styles.section
  | styles.role, styles.role | styles.company, styles.company
  | styles.body, styles.body | styles.bullet, styles.bullet
  | styles.italic_label, styles.italic_label
  | styles.skills, styles.skills => true
  | _, _ => false
  end.

Definition has_style (k : styles.key) (f : flowable) : bool :=
  match f with
  | Paragraph _ k' => style_eqb k k'
  | HRFlowable _ _ _ => false
  end.

(** What may follow the thick rule: thin rules and paragraphs other than
    subtitles. *)
Definition after_header (f : flowable) : Prop :=
  match f with
  | Paragraph _ k => k <> styles.subtitle
  | HRFlowable _ _ _ => f = hr
  end.

(** Number of paragraphs of style [k]. *)
Definition count_style (k : styles.key) (fs : list flowable) : nat :=
  List.length (filter (has_style k) fs).

(** Number of lines whose trimmed form starts with [m]. *)
Definition count_marked (m : string) (ls : list string) : nat :=
  List.length (filter (fun l => startswith m (rstrip l)) ls).

(** Number of lines that are not blank. *)
Definition count_nonblank (ls : list string) : nat :=
  List.length (filter (fun l => negb (is_blank l)) ls).

(** The paragraphs whose text went through the normalizer carry no bare
    ampersand; in a bullet that holds behind the glyph prefix. *)
Definition escaped_text (f : flowable) : Prop :=
  match f with
  | Paragraph t styles.bullet =>
      exists t', t = "&#8226; &nbsp;" ++ t' /\ amps_escaped t' = true
  | Paragraph _ styles.section | Paragraph _ styles.italic_label
  | Paragraph _ styles.contact => True
  | Paragraph t _ => amps_escaped t = true
  | HRFlowable _ _ _ => True
  end.

(** What the loop keeps true of the header flag and the story. *)
Definition header_inv (st : state) : Prop :=
  (is_header_done st = false
   /\ Forall (fun f => is_hr f = false) (story st))
  \/ (is_header_done st = true
      /\ exists pre post,
           story st = (pre ++ thick_hr :: post)%list
           /\ Forall (fun f => is_hr f = false) pre
           /\ Forall after_header post).

(** A text of three lines, the middle one blank. *)
Definition two_paragraph_doc : string :=
  "# Jane Doe" ++ String newline "   " ++ String newline "Engineer & more".


(** What the loop keeps true of the section name and the section
    paragraphs. *)
Definition section_inv (st : state) : Prop :=
  current_section st <> Some ""
  /\ Forall (fun f => f <> Paragraph "" styles.section) (story st).

(** A text with a bare section marker and a real section header. *)
Definition section_doc : string :=
  "##   " ++ String newline "## Work & Life  ".

(** The line markers that open a block of their own, with the style of
    that block. *)
Definition markers : list (string * styles.key) :=
  [("# ", styles.name); ("## ", styles.section); ("### ", styles.role);
   ("- ", styles.bullet)].

(** A text with every marker, continuation lines and a body paragraph. *)
Definition marker_doc : string :=
  "# Jane" ++ String newline "## Work" ++ String newline "### Lead"
  ++ String newline "- one" ++ String newline "  more" ++ String newline
  "- two" ++ String newline "text" ++ String newline "  - three".

(** ** Theme and style table *)

(** A [dict] literal with string keys, in source order; [d[k]] is
    [lookup k d], [None] where Python raises [KeyError]. *)
Fixpoint lookup {V : Type} (k : string) (d : list (string * V)) : option V :=
  match d with
  | [] => None
  | (k', v) :: d' => if String.eqb k k' then Some v else lookup k d'
  end.

Definition THEME : list (string * string) :=
  [("dark", "#1a1a2e"); ("accent", "#2d6a8f"); ("text", "#333333");
   ("gray", "#555555"); ("light_gray", "#888888"); ("rule", "#cccccc");
   ("font", "Helvetica"); ("font_bold", "Helvetica-Bold");
   ("font_italic", "Helvetica-Oblique")].

Inductive color : Type := HexColor (hex : string).

Inductive alignment : Type := TA_LEFT.

(** The arguments [build_styles] passes to [ParagraphStyle]; sizes and
    leadings are in tenths of a point, the other lengths in points, and
    an argument that is not passed is [None]. *)
Record ParagraphStyle : Type := mkStyle {
  style_name : string;
  fontSize : nat;
  leading : nat;
  textColor : color;
  fontName : string;
  spaceBefore : option nat;
  spaceAfter : option nat;
  leftIndent : option nat;
  firstLineIndent : option Z;
  align : option alignment
}.

Definition bind {A B : Type} (x : option A) (f : A -> option B)
  : option B :=
  match x with
  | Some a => f a
  | None => None
  end.

Definition build_styles : option (list (string * ParagraphStyle)) :=
  let T := THEME in
  bind (lookup "dark" T) (fun dark =>
  bind (lookup "font_bold" T) (fun font_bold =>
  bind (lookup "accent" T) (fun accent =>
  bind (lookup "font" T) (fun font =>
  bind (lookup "gray" T) (fun gray =>
  bind (lookup "text" T) (fun text =>
  bind (lookup "font_italic" T) (fun font_italic =>
  Some
    [("name",
      mkStyle "Name" 220 260 (HexColor dark) font_bold
              None (Some 2) None None (Some TA_LEFT));
     ("subtitle",
      mkStyle "Subtitle" 110 140 (HexColor accent) font
              None (Some 2) None None None);
     ("contact",
      mkStyle "Contact" 90 120 (HexColor gray) font
              None (Some 4) None None None);
     ("section",
      mkStyle "Section" 120 150 (HexColor accent) font_bold
              (Some 10) (Some 4) None None None);
     ("role",
      mkStyle "Role" 110 140 (HexColor dark) font_bold
              (Some 6) (Some 1) None None None);
     ("company",
      mkStyle "Company" 95 120 (HexColor gray) font
              None (Some 3) None None None);
     ("body",
      mkStyle "Body" 95 135 (HexColor text) font
              None (Some 2) None None None);
     ("bullet",
      mkStyle "Bullet" 95 130 (HexColor text) font
              None (Some 2) (Some 14) (Some (-10)%Z) None);
     ("italic_label",
      mkStyle "ItalicLabel" 95 130 (HexColor accent) font_italic
              (Some 4) (Some 2) None None None);
     ("skills",
      mkStyle "Skills" 90 125 (HexColor "#444444") font
              None (Some 1) None None None)]))))))).

(** The string each key of [styles.key] stands for in
    [parse_resume_md]. *)
Definition key_name (k : styles.key) : string :=
  match k with
  | styles.name => "name"
  | styles.subtitle => "subtitle"
  | styles.contact => "contact"
  | styles.section => "section"
  | styles.role => "role"
  | styles.company => "company"
  | styles.body => "body"
  | styles.bullet => "bullet"
  | styles.italic_label => "italic_label"
  | styles.skills => "skills"
  end.

(** The colours and fonts a style may take from the theme. *)
Definition from_theme (v : string) : Prop :=
  exists k, lookup k THEME = Some v.

(** Number of lines whose trimmed form is a rule line. *)
Definition count_rule_lines (ls : list string) : nat :=
  List.length (filter (fun l => is_rule (rstrip l)) ls).

(** A text with three rule lines among other blocks. *)
Definition rules_doc : string :=
  "# Jane" ++ String newline "---" ++ String newline "text"
  ++ String newline "-----" ++ String newline "- item" ++ String newline
  "---".

(* ================================================================== *)
(** ** Paragraph construction *)

(** How a call of [parse_resume_md] ends: with the story, with the
    [ValueError] of a [Paragraph] constructor, or not within the fuel. *)
Inductive parsed : Type :=
| Returned (flowables : list flowable)
| ValueError
| OutOfFuel.

Section Reportlab.

(** [Paragraph(text, style)] parses the markup of its text and raises
    [ValueError] where the layout library finds it malformed;
    [paragraph_accepts text style] tells whether the constructor
    returns. *)
Variable paragraph_accepts : string -> styles.key -> bool.

Definition constructs (f : flowable) : bool :=
  match f with
  | Paragraph text style => paragraph_accepts text style
  | HRFlowable _ _ _ => true
  end.

(** [while i < len(lines)] with the constructor calls that can raise: an
    iteration whose paragraph the constructor rejects ends the loop, and
    the call, with the exception. *)
Fixpoint loop_raising (fuel : nat) (lines : list string) (st : state)
  : parsed :=
  if (i st <? List.length lines)%nat then
    match fuel with
    | 0 => OutOfFuel
    | S f =>
        if forallb constructs (emitted lines st)
        then loop_raising f lines (step lines st)
        else ValueError
    end
  else Returned (story st).

Definition parse_resume_md_raising (md_text : string) : parsed :=
  let lines := split_lines md_text in
  loop_raising (List.length lines) lines init.

End Reportlab.

(* ================================================================== *)
(** ** The program *)

Section Program.

Variable paragraph_accepts : string -> styles.key -> bool.

(** [SimpleDocTemplate(pdf_path, ...).build(story)], the layout
    collaborator: the file system it leaves behind, and whether it
    returned ([false] where it raised). *)
Variable doc_build : filesystem -> string -> list flowable
                     -> filesystem * bool.

(** Whether the [print] of the confirmation line, which starts with a
    check mark, returns: it raises where the output stream cannot encode
    or take the line. *)
Variable print_returns : string -> nat -> bool.

Definition generate_pdf (fs : filesystem) (md_path pdf_path : string)
  : run :=
  match read_text fs md_path with
  | None => mkRun fs [ev_read_text md_path] Raised
  | Some md_text =>
      match parse_resume_md_raising paragraph_accepts md_text with
      | OutOfFuel =>
          mkRun fs [ev_read_text md_path; ev_parse md_text] Diverged
      | ValueError =>
          mkRun fs [ev_read_text md_path; ev_parse md_text] Raised
      | Returned story =>
          let before := [ev_read_text md_path; ev_parse md_text;
                         ev_build pdf_path story] in
          let (fs', built) := doc_build fs pdf_path story in
          if built && print_returns pdf_path (List.length story)
          then mkRun fs'
                 (before ++ [ev_generated pdf_path (List.length story)])
                 (Exit 0)
          else mkRun fs' before Raised
      end
  end.

(** [sys.argv[1] if len(sys.argv) > 1 else "resume.md"], and likewise
    for the output. *)
Definition input_md (argv : list string) : string :=
  if (1 <? List.length argv)%nat then nth 1 argv EmptyString
  else "resume.md".

Definition output_pdf (argv : list string) : string :=
  if (2 <? List.length argv)%nat then nth 2 argv EmptyString
  else "resume.pdf".

Definition main (argv : list string) (fs : filesystem) : run :=
  if negb (path_exists fs (input_md argv)) then
    mkRun fs
      [ev_stderr ("Error: " ++ input_md argv ++ " not found"
                  ++ String newline EmptyString)]
      (Exit 1)
  else generate_pdf fs (input_md argv) (output_pdf argv).

End Program.

(** ** Sample environments, used only in statements *)

(** A file system with one readable file. *)
Definition one_file_fs : filesystem :=
  {| path_exists := fun p => String.eqb p "resume.md";
     read_text := fun p => if String.eqb p "resume.md"
                           then Some "# Jane" else None |}.

(** A file system in which the path [docs] exists and cannot be read as
    text, as a directory. *)
Definition directory_fs : filesystem :=
  {| path_exists := fun p => String.eqb p "docs";
     read_text := fun _ => None |}.

(** A renderer that returns and leaves the file system as it is, and an
    output stream that takes the confirmation. *)
Definition quiet_build (fs : filesystem) (pdf_path : string)
    (flowables : list flowable) : filesystem * bool := (fs, true).

Definition prints (pdf_path : string) (num_elements : nat) : bool := true.

(** A constructor that accepts every text. *)
Definition accepts_all (text : string) (style : styles.key) : bool := true.

(** A text whose bold and italic spans cross, the markup it normalizes
    to, and a constructor that raises on that markup, as the layout
    library does on tags that are closed out of order. *)
Definition crossing_text : string := "*a **b* c**".

Definition crossing_markup : string := "<i>a <b>b</i> c</b>".

Definition rejects_crossing (text : string) (style : styles.key) : bool :=
  negb (String.eqb text crossing_markup).

(** The units of a text: those of the loop run on its lines. *)
Definition units_of (md_text : string) : list (nat * nat * list flowable) :=
  units (List.length (split_lines md_text)) (split_lines md_text) init.

(** A unit carries no flowable when its first line is blank, one
    otherwise. *)
Definition one_block_per_unit (lines : list string)
    (u : nat * nat * list flowable) : Prop :=
  List.length (snd u)
  = if is_blank (nth (fst (fst u)) lines "") then 0 else 1.

(* ================================================================== *)
(** * Properties *)

(** ** Strings *)

Lemma append_nil_r (s : string) : s ++ "" = s.
Proof. induction s as [|c s IH]; simpl; [reflexivity | now rewrite IH]. Qed.

Lemma append_assoc (a b c : string) : (a ++ b) ++ c = a ++ (b ++ c).
Proof. induction a as [|x a IH]; simpl; [reflexivity | now rewrite IH]. Qed.

Lemma length_append (a b : string) : length (a ++ b) = length a + length b.
Proof. induction a as [|x a IH]; simpl; [reflexivity | now rewrite IH]. Qed.

Lemma drop_length_le (n : nat) (s : string) : length (drop n s) <= length s.
Proof.
  revert s; induction n as [|n IH]; intros [|c s]; simpl; try lia.
  specialize (IH s); lia.
Qed.

Lemma span_length (p : ascii -> bool) (s a b : string) :
  span p s = (a, b) -> length s = length a + length b.
Proof.
  revert a b; induction s as [|c s IH]; simpl; intros a b H.
  - now inversion H.
  - destruct (p c).
    + destruct (span p s) as [a' b'] eqn:E. inversion H; subst; simpl.
      now rewrite (IH a' b).
    + now inversion H.
Qed.

Lemma lazy_until_length (d s a r : string) :
  lazy_until d s = Some (a, r) -> length r <= length s.
Proof.
  revert a r; induction s as [|c s IH]; intros a r.
  - simpl. destruct (startswith d ""); [|discriminate].
    intros H; inversion H; subst. apply drop_length_le.
  - cbn [lazy_until]. destruct (startswith d (String c s)).
    + intros H; inversion H; subst. apply drop_length_le.
    + destruct (Ascii.eqb c newline); [discriminate|].
      destruct (lazy_until d s) as [[a' r']|]; [|discriminate].
      intros H; inversion H; subst. specialize (IH a' r eq_refl). simpl; lia.
Qed.

(** ** The substitution scan *)

Section Resub.
Context {G : Type} (at_ : string -> option (G * string))
        (repl : G -> string).

Hypothesis at_shorter :
  forall s g r, at_ s = Some (g, r) -> length r < length s.

Lemma resub_fuel_irrelevant (n : nat) :
  forall s f1 f2,
    length s <= n -> length s <= f1 -> length s <= f2 ->
    resub_fuel at_ repl f1 s = resub_fuel at_ repl f2 s.
Proof.
  induction n as [|n IH]; intros [|c s] f1 f2 Hn H1 H2;
    try (now destruct f1, f2); simpl in *; try lia.
  destruct f1 as [|f1], f2 as [|f2]; try lia. cbn [resub_fuel].
  destruct (at_ (String c s)) as [[g r]|] eqn:E.
  - apply at_shorter in E. simpl in E.
    f_equal. apply IH; lia.
  - f_equal. apply IH; lia.
Qed.

(** The length of the text is enough fuel: more changes nothing. *)
Lemma resub_fuel_enough (fuel : nat) (s : string) :
  length s <= fuel -> resub_fuel at_ repl fuel s = resub at_ repl s.
Proof.
  intros H. unfold resub.
  apply (resub_fuel_irrelevant (length s)); lia.
Qed.
End Resub.

Lemma resub_no_match {G : Type} (at_ : string -> option (G * string))
    (repl : G -> string) (s : string) :
  matches_in at_ s = false ->
  forall fuel, resub_fuel at_ repl fuel s = s.
Proof.
  induction s as [|c s IH]; intros H fuel.
  - now destruct fuel.
  - destruct fuel as [|fuel]; [reflexivity|].
    cbn [resub_fuel]. cbn [matches_in] in H.
    apply orb_false_elim in H as [H1 H2].
    destruct (at_ (String c s)); [discriminate|].
    now rewrite IH.
Qed.

Lemma startswith_drop_length (p s : string) :
  startswith p s = true -> length (drop (length p) s) + length p = length s.
Proof.
  revert s; induction p as [|a p IH]; intros s H; simpl.
  - destruct s; simpl; lia.
  - destruct s as [|c s]; simpl in H; [discriminate|].
    apply andb_prop in H as [_ H]. simpl. specialize (IH s H). lia.
Qed.

Lemma lazy_group_shorter (d s a r : string) :
  lazy_group d s = Some (a, r) -> length r < length s.
Proof.
  unfold lazy_group. destruct s as [|c s]; [discriminate|].
  destruct (Ascii.eqb c newline); [discriminate|].
  destruct (lazy_until d s) as [[a' r']|] eqn:E; [|discriminate].
  intros H; inversion H; subst. apply lazy_until_length in E. simpl; lia.
Qed.

Lemma bold_at_shorter (s g r : string) :
  bold_at s = Some (g, r) -> length r < length s.
Proof.
  unfold bold_at. destruct (startswith "**" s) eqn:E; [|discriminate].
  intros H. apply lazy_group_shorter in H.
  pose proof (drop_length_le 2 s). lia.
Qed.

Lemma italic_at_shorter (s g r : string) :
  italic_at s = Some (g, r) -> length r < length s.
Proof.
  unfold italic_at. destruct (startswith "*" s) eqn:E; [|discriminate].
  intros H. apply lazy_group_shorter in H.
  pose proof (drop_length_le 1 s). lia.
Qed.

Lemma link_at_shorter (s : string) (g : string * string) (r : string) :
  link_at' s = Some (g, r) -> length r < length s.
Proof.
  unfold link_at', link_at.
  destruct (startswith "[" s) eqn:E0; [|discriminate].
  apply startswith_drop_length in E0. cbn [length] in E0.
  destruct (span not_rbracket (drop 1 s)) as [label s2] eqn:E1.
  apply span_length in E1.
  destruct (is_empty label); [discriminate|].
  destruct (startswith "](" s2) eqn:E2; [|discriminate].
  apply startswith_drop_length in E2. cbn [length] in E2.
  destruct (span not_rparen (drop 2 s2)) as [url s4] eqn:E3.
  apply span_length in E3.
  destruct (is_empty url); [discriminate|].
  destruct (startswith ")" s4) eqn:E4; [|discriminate].
  apply startswith_drop_length in E4. cbn [length] in E4.
  intros [= _ <-]. cbn [drop] in *. lia.
Qed.

(** The three scans of [md_inline] and the one of the contact line never
    stop for lack of fuel. *)
Lemma sub_link_fuel (fuel : nat) (s : string) :
  length s <= fuel -> resub_fuel link_at' link_repl fuel s = sub_link s.
Proof. apply resub_fuel_enough, link_at_shorter. Qed.

Lemma sub_bold_fuel (fuel : nat) (s : string) :
  length s <= fuel -> resub_fuel bold_at bold_repl fuel s = sub_bold s.
Proof. apply resub_fuel_enough, bold_at_shorter. Qed.

Lemma sub_italic_fuel (fuel : nat) (s : string) :
  length s <= fuel -> resub_fuel italic_at italic_repl fuel s = sub_italic s.
Proof. apply resub_fuel_enough, italic_at_shorter. Qed.

(** ** The ampersand pass *)

Lemma startswith_escape_amp (p s : string) :
  amp_free p = true -> startswith p (escape_amp s) = startswith p s.
Proof.
  revert s; induction p as [|a p IH]; intros s Hp; [reflexivity|].
  simpl in Hp. apply andb_prop in Hp as [Ha Hp].
  destruct s as [|c s]; [reflexivity|]. cbn [escape_amp].
  destruct (Ascii.eqb c "&") eqn:Ec; cbn [andb].
  - apply Ascii.eqb_eq in Ec; subst c.
    destruct (negb (entity_ahead s)); cbn [append startswith];
      destruct (Ascii.eqb a "&"); try discriminate; reflexivity.
  - cbn [startswith]. now rewrite IH.
Qed.

Lemma entity_ahead_escape_amp (s : string) :
  entity_ahead (escape_amp s) = entity_ahead s.
Proof.
  unfold entity_ahead. now rewrite !startswith_escape_amp.
Qed.

(** No ampersand is escaped a second time. *)
Lemma escape_amp_idempotent (s : string) :
  escape_amp (escape_amp s) = escape_amp s.
Proof.
  induction s as [|c s IH]; [reflexivity|]. cbn [escape_amp].
  destruct (Ascii.eqb c "&") eqn:Ec; cbn [andb].
  - apply Ascii.eqb_eq in Ec; subst c.
    destruct (entity_ahead s) eqn:Ee; cbn [negb].
    + cbn [escape_amp]. rewrite entity_ahead_escape_amp, Ee. cbn.
      now rewrite IH.
    + cbn. now rewrite IH.
  - cbn [escape_amp]. rewrite Ec. cbn [andb]. now rewrite IH.
Qed.

(** ** C3 and C4: the inline normalizer *)


(** C4, as stated, fails: the four asterisks normalize to a text whose
    two leftover asterisks the second run pairs up as italic markup. *)
Lemma md_inline_not_idempotent :
  md_inline "****" = "<i>*</i>*"
  /\ md_inline (md_inline "****") = "<i><i></i></i>"
  /\ md_inline (md_inline "****") <> md_inline "****".
Proof.
  split; [vm_compute; reflexivity|].
  split; [vm_compute; reflexivity|].
  vm_compute. discriminate.
Qed.

(** C4, amended: on normalized text [t] the ampersand pass changes
    nothing, and where no link, bold or italic pattern matches in [t] a
    second normalization returns [t]. *)
Theorem md_inline_idempotent_without_markup (x : string) :
  let t := md_inline x in
  escape_amp t = t
  /\ (has_link t = false -> has_bold t = false -> has_italic t = false ->
      md_inline t = t).
Proof.
  intros t. assert (Ha : escape_amp t = t).
  { unfold t, md_inline. apply escape_amp_idempotent. }
  split; [exact Ha|]. intros Hl Hb Hi.
  unfold md_inline, sub_link, sub_bold, sub_italic, resub.
  rewrite (resub_no_match _ _ t Hl).
  rewrite (resub_no_match _ _ t Hb).
  rewrite (resub_no_match _ _ t Hi).
  exact Ha.
Qed.

Lemma md_inline_idempotent_without_markup_witness :
  let t := md_inline "**R&D** at [x](http://y?a=1&amp;b=2) &lt;" in
  has_link t = false /\ has_bold t = false /\ has_italic t = false
  /\ md_inline t = t.
Proof.
  cbv zeta.
  refine (conj _ (conj _ (conj _ _)));
    [vm_compute; reflexivity ..|].
  apply (md_inline_idempotent_without_markup
           "**R&D** at [x](http://y?a=1&amp;b=2) &lt;");
    vm_compute; reflexivity.
Defined.

(** ** One iteration of the loop *)

Ltac step_cases :=
  unfold step; cbv zeta;
  repeat match goal with
    | |- context [match (if ?b then _ else _) with _ => _ end] =>
        destruct b eqn:?
    | |- context [match subtitle_match ?l with _ => _ end] =>
        destruct (subtitle_match l) eqn:?
    | |- context [if ?b then _ else _] => destruct b eqn:?
    | |- context [let (_, _) := ?p in _] => destruct p eqn:?
    end.

Lemma continuation_count (absorbs : string -> bool) (rest : list string) :
  forall text, snd (continuation absorbs rest text) <= List.length rest.
Proof.
  induction rest as [|l rest IH]; intros text; cbn [continuation];
    [simpl; lia|].
  destruct (absorbs l); [|simpl; lia].
  specialize (IH (text ++ " " ++ strip l)).
  destruct (continuation absorbs rest (text ++ " " ++ strip l)).
  cbn [snd List.length] in *. lia.
Qed.

(** Every iteration moves the cursor forward. *)
Lemma step_advances (lines : list string) (st : state) :
  i st < i (step lines st).
Proof. step_cases; simpl; lia. Qed.

(** No iteration moves the cursor past the last line. *)
Lemma step_in_bounds (lines : list string) (st : state) :
  i st < List.length lines -> i (step lines st) <= List.length lines.
Proof.
  intros H.
  assert (Hc : forall f t,
             snd (continuation f (skipn (S (i st)) lines) t) + S (i st)
             <= List.length lines).
  { intros f t.
    pose proof (continuation_count f (skipn (S (i st)) lines) t) as Hc.
    rewrite length_skipn in Hc. lia. }
  step_cases; simpl; try lia;
    match goal with
    | E : continuation ?f _ ?t = (_, _) |- _ =>
        specialize (Hc f t); rewrite E in Hc; simpl in Hc; lia
    end.
Qed.

(** An iteration only appends: nothing for a blank line, one flowable
    otherwise. *)
Lemma step_appends (lines : list string) (st : state) :
  story (step lines st) = (story st ++ emitted lines st)%list
  /\ List.length (emitted lines st)
     = if is_empty (rstrip (nth (i st) lines "")) then 0 else 1.
Proof.
  unfold emitted.
  assert (H : exists bs,
             story (step lines st) = (story st ++ bs)%list
             /\ List.length bs
                = if is_empty (rstrip (nth (i st) lines "")) then 0 else 1).
  { step_cases; simpl;
      try (exists []; rewrite app_nil_r; split; reflexivity);
      eexists; split; reflexivity. }
  destruct H as (bs & -> & Hl).
  rewrite skipn_app, skipn_all, Nat.sub_diag. simpl. now split.
Qed.

(** The header flag is never cleared. *)
Lemma step_header_done (lines : list string) (st : state) :
  is_header_done st = true -> is_header_done (step lines st) = true.
Proof. intros H. step_cases; simpl; congruence. Qed.

(** ** The whole loop *)

Lemma loop_runs (fuel : nat) (lines : list string) :
  forall st,
    i st <= List.length lines ->
    List.length lines - i st <= fuel ->
    exists final,
      loop fuel lines st = Some final
      /\ i final = List.length lines
      /\ story final = (story st ++ flat_map snd (units fuel lines st))%list
      /\ tiles (i st) (List.length lines) (units fuel lines st).
Proof.
  induction fuel as [|fuel IH]; intros st Hle Hf.
  - assert (Hi : i st = List.length lines) by lia.
    exists st. simpl. rewrite Hi, Nat.ltb_irrefl. simpl.
    now rewrite app_nil_r.
  - cbn [loop units]. destruct (i st <? List.length lines)%nat eqn:E.
    + apply Nat.ltb_lt in E.
      pose proof (step_advances lines st) as Ha.
      pose proof (step_in_bounds lines st E) as Hb.
      destruct (step_appends lines st) as [Hs Hl].
      destruct (IH (step lines st)) as (final & H1 & H2 & H3 & H4);
        [lia | lia |].
      exists final. split; [exact H1|]. split; [exact H2|]. split.
      * rewrite H3, Hs. cbn [flat_map snd]. now rewrite List.app_assoc.
      * cbn [tiles]. repeat split; try lia; try exact H4.
        rewrite Hl. destruct (is_empty _); lia.
    + apply Nat.ltb_ge in E. assert (Hi : i st = List.length lines) by lia.
      exists st. simpl. now rewrite app_nil_r.
Qed.

(** More fuel than needed changes nothing. *)
Lemma loop_fuel_mono (fuel : nat) (lines : list string) :
  forall st final fuel',
    loop fuel lines st = Some final -> fuel <= fuel' ->
    loop fuel' lines st = Some final.
Proof.
  induction fuel as [|fuel IH]; intros st final fuel' H Hle.
  - simpl in H. destruct fuel'; simpl;
      destruct (i st <? List.length lines)%nat; congruence.
  - destruct fuel' as [|fuel']; [lia|]. cbn [loop] in *.
    destruct (i st <? List.length lines)%nat; [|exact H].
    apply IH; [exact H | lia].
Qed.

(** [parse_resume_md] always returns: the number of lines is enough
    fuel, and the story is what the units carry, in their order. *)
Lemma parse_resume_md_units (md_text : string) :
  let lines := split_lines md_text in
  let us := units (List.length lines) lines init in
  parse_resume_md md_text = Some (flat_map snd us)
  /\ tiles 0 (List.length lines) us.
Proof.
  intros lines us. unfold parse_resume_md. fold lines.
  destruct (loop_runs (List.length lines) lines init)
    as (final & H1 & _ & H3 & H4); [simpl; lia .. |].
  rewrite H1. simpl in *. rewrite H3. now split.
Qed.

(** ** The rules, one by one *)

(** Past the guards that precede the bullet rule, an iteration is the
    rest of the chain. *)
Lemma step_from_bullet (lines : list string) (st : state) :
  is_empty (line_at lines st) = false ->
  before_bullet (is_header_done st) (line_at lines st) = false ->
  step lines st =
  let line := line_at lines st in
  if startswith "- " line then
    let (text, n) :=
      continuation bullet_absorbs (skipn (S (i st)) lines)
                   (strip (drop 2 line)) in
    emit (Paragraph ("&#8226; &nbsp;" ++ md_inline text) styles.bullet)
         (n + 1) st
  else if contains "|" line && contains "@" line then
    emit (Paragraph (replace_pipe (strip_links line)) styles.contact) 1 st
  else if in_expertise (current_section st) && contains "**" line then
    emit (Paragraph (md_inline line) styles.skills) 1 st
  else
    let (para_text, n) :=
      continuation body_absorbs (skipn (S (i st)) lines) line in
    emit (Paragraph (md_inline para_text) styles.body) (n + 1) st.
Proof.
  unfold line_at, before_bullet. intros He H.
  repeat (apply orb_false_elim in H as [H ?]).
  unfold step. cbv zeta.
  repeat match goal with
         | E : ?b = false |- context [if ?b then _ else _] => rewrite E
         end.
  destruct (is_header_done st); [reflexivity|].
  destruct (subtitle_match _); [discriminate | reflexivity].
Qed.

(** A rule line that the loop reaches: thick and flag set the first
    time, thin afterwards. *)
Lemma step_rule_line (lines : list string) (st : state) :
  is_rule (line_at lines st) = true ->
  step lines st =
  {| i := i st + 1; is_header_done := true;
     current_section := current_section st;
     story := story st ++ [if is_header_done st then hr else thick_hr] |}.
Proof.
  unfold line_at. intros H. unfold step. cbv zeta. rewrite H.
  destruct (rstrip (nth (i st) lines "")) eqn:E; [discriminate|].
  cbn [is_empty]. unfold emit. destruct (is_header_done st); reflexivity.
Qed.

(** ** C5 and C6: totality and document order *)

(** The loop with the raising constructor never stops for lack of fuel:
    it returns the flowables of the units when the constructor accepts
    them all, and raises otherwise. *)
Lemma loop_raising_units (accepts : string -> styles.key -> bool)
    (fuel : nat) (lines : list string) :
  forall st,
    i st <= List.length lines ->
    List.length lines - i st <= fuel ->
    loop_raising accepts fuel lines st
    = if forallb (constructs accepts) (flat_map snd (units fuel lines st))
      then Returned (story st ++ flat_map snd (units fuel lines st))
      else ValueError.
Proof.
  induction fuel as [|fuel IH]; intros st Hle Hf; cbn [loop_raising units];
    destruct (i st <? List.length lines)%nat eqn:E;
    try (cbn; now rewrite app_nil_r).
  - apply Nat.ltb_lt in E. lia.
  - apply Nat.ltb_lt in E.
    pose proof (step_advances lines st) as Ha.
    pose proof (step_in_bounds lines st E) as Hb.
    destruct (step_appends lines st) as [Hs _].
    cbn [flat_map snd]. rewrite forallb_app.
    destruct (forallb (constructs accepts) (emitted lines st));
      [|reflexivity].
    rewrite IH by lia. cbn [andb].
    destruct (forallb _ _); [|reflexivity].
    now rewrite Hs, List.app_assoc.
Qed.

Lemma parse_resume_md_raising_units
    (accepts : string -> styles.key -> bool) (md_text : string) :
  parse_resume_md_raising accepts md_text
  = if forallb (constructs accepts) (flat_map snd (units_of md_text))
    then Returned (flat_map snd (units_of md_text))
    else ValueError.
Proof.
  unfold parse_resume_md_raising, units_of. cbv zeta.
  rewrite loop_raising_units by (simpl; lia). reflexivity.
Qed.

(** What the call returns is what the loop without the constructor's
    test builds. *)
Lemma parse_resume_md_raising_returned
    (accepts : string -> styles.key -> bool) (md_text : string)
    (flowables : list flowable) :
  parse_resume_md_raising accepts md_text = Returned flowables ->
  parse_resume_md md_text = Some flowables.
Proof.
  rewrite parse_resume_md_raising_units.
  destruct (parse_resume_md_units md_text) as [H _].
  fold (units_of md_text) in H.
  destruct (forallb _ _); [|discriminate]. now intros [= <-].
Qed.

Lemma units_one_block (fuel : nat) (lines : list string) :
  forall st, Forall (one_block_per_unit lines) (units fuel lines st).
Proof.
  induction fuel as [|fuel IH]; intros st; cbn [units];
    destruct (i st <? List.length lines)%nat; constructor.
  - unfold one_block_per_unit, is_blank. cbn [fst snd].
    apply step_appends.
  - apply IH.
Qed.

(** C5, as stated, fails: the classifier raises on a text whose bold and
    italic spans cross, since the constructor rejects the markup that
    text normalizes to. *)
Lemma classifier_raises_on_crossing_markup :
  md_inline crossing_text = crossing_markup
  /\ parse_resume_md crossing_text
     = Some [Paragraph crossing_markup styles.body]
  /\ parse_resume_md_raising rejects_crossing crossing_text = ValueError.
Proof. repeat split; vm_compute; reflexivity. Qed.

(** C5, amended: the rules of the classifier are total.  For every text
    the loop ends; its iterations tile the lines, each building no
    flowable where its first line is blank and exactly one otherwise,
    and a line no rule claims becomes a body paragraph.  The call
    returns the flowables of the iterations, in their order, when the
    [Paragraph] constructor accepts the text of each, and raises its
    [ValueError] otherwise; it ends in no other way. *)
Theorem classifier_total (accepts : string -> styles.key -> bool)
    (md_text : string) :
  parse_resume_md_raising accepts md_text
  = (if forallb (constructs accepts) (flat_map snd (units_of md_text))
     then Returned (flat_map snd (units_of md_text))
     else ValueError)
  /\ tiles 0 (List.length (split_lines md_text)) (units_of md_text)
  /\ Forall (one_block_per_unit (split_lines md_text)) (units_of md_text)
  /\ forall lines st,
       i st < i (step lines st)
       /\ story (step lines st) = (story st ++ emitted lines st)%list
       /\ List.length (emitted lines st)
          = (if is_empty (line_at lines st) then 0 else 1)
       /\ (is_empty (line_at lines st) = false ->
           before_body st (line_at lines st) = false ->
           exists text, emitted lines st = [Paragraph text styles.body]).
Proof.
  split; [apply parse_resume_md_raising_units|].
  split; [apply parse_resume_md_units|].
  split; [apply units_one_block|].
  intros lines st. destruct (step_appends lines st) as [Hs Hl].
  split; [apply step_advances|]. split; [exact Hs|].
  split; [exact Hl|]. intros He Hb.
  apply orb_false_elim in Hb as [Hb Hk]. unfold before_skills in Hb.
  apply orb_false_elim in Hb as [Hb Hc].
  apply orb_false_elim in Hb as [Hb Hu].
  unfold emitted. rewrite (step_from_bullet lines st He Hb). cbv zeta.
  repeat match goal with
         | E : ?b = false |- context [if ?b then _ else _] => rewrite E
         end.
  destruct (continuation body_absorbs _ _) as [t n]. exists (md_inline t).
  cbn [emit story]. rewrite skipn_app, skipn_all, Nat.sub_diag.
  reflexivity.
Qed.

Lemma classifier_total_witness :
  exists text,
    emitted ["plain text"; "more"] init = [Paragraph text styles.body].
Proof.
  apply (proj2 (proj2 (proj2 (classifier_total accepts_all "")))
           ["plain text"; "more"] init);
    vm_compute; reflexivity.
Defined.

(** C6: when the call returns, its story is the concatenation, unit
    after unit, of what each iteration appended, and the units tile the
    lines from the first to the last, left to right: the blocks stand in
    the order of their spans.  An iteration only appends and only moves
    forward. *)
Theorem document_order (accepts : string -> styles.key -> bool)
    (md_text : string) (flowables : list flowable) :
  parse_resume_md_raising accepts md_text = Returned flowables ->
  flowables = flat_map snd (units_of md_text)
  /\ tiles 0 (List.length (split_lines md_text)) (units_of md_text)
  /\ forall st, exists bs,
       story (step (split_lines md_text) st) = (story st ++ bs)%list
       /\ i st < i (step (split_lines md_text) st).
Proof.
  intros H. rewrite parse_resume_md_raising_units in H.
  destruct (forallb _ _); [|discriminate]. injection H as <-.
  split; [reflexivity|]. split; [apply parse_resume_md_units|].
  intros st. exists (emitted (split_lines md_text) st).
  split; [apply step_appends | apply step_advances].
Qed.

Lemma document_order_witness :
  [Paragraph "Jane Doe" styles.name;
   Paragraph "Engineer &amp; more" styles.body]
  = flat_map snd (units_of two_paragraph_doc)
  /\ tiles 0 3 (units_of two_paragraph_doc).
Proof.
  assert (H : parse_resume_md_raising accepts_all two_paragraph_doc
              = Returned [Paragraph "Jane Doe" styles.name;
                          Paragraph "Engineer &amp; more" styles.body])
    by (vm_compute; reflexivity).
  split; [exact (proj1 (document_order accepts_all _ _ H))|].
  exact (proj1 (proj2 (document_order accepts_all _ _ H))).
Defined.

(** ** C2: rule lines *)

(** C2 at a failing input: the second line is a rule line once trimmed,
    yet the body paragraph before it absorbs it, and no rule is
    produced. *)
Theorem trimmed_rule_absorbed_by_body :
  split_lines absorbed_rule_doc = ["Hello"; "--- "]
  /\ is_rule (rstrip "--- ") = true
  /\ body_absorbs "--- " = true
  /\ parse_resume_md absorbed_rule_doc
     = Some [Paragraph "Hello ---" styles.body].
Proof. repeat split; vm_compute; reflexivity. Qed.

(** ** Continuation lines *)



(** A line that starts a bullet is claimed by no earlier rule. *)
Lemma bullet_line_first (line : string) (done : bool) :
  startswith "- " line = true ->
  is_empty line = false /\ before_bullet done line = false.
Proof.
  destruct line as [|c1 [|c2 l]]; cbn [startswith]; intros H;
    try discriminate.
  - apply andb_prop in H as [_ H]. discriminate.
  - apply andb_prop in H as [H1 H]. apply andb_prop in H as [H2 _].
    apply Ascii.eqb_eq in H1, H2. subst c1 c2.
    split; [reflexivity|]. destruct done; reflexivity.
Qed.

(** ** C7: bullets *)




(** ** C8: body paragraphs *)

(** The stop test of the body loop, clause by clause. *)
Lemma body_absorbs_iff (l : string) :
  body_absorbs l = true <->
  strip l <> "" /\ startswith "#" l = false /\ startswith "- " l = false
  /\ is_rule l = false /\ startswith "**" l = false.
Proof.
  unfold body_absorbs. rewrite !andb_true_iff, !negb_true_iff.
  assert (He : is_empty (strip l) = false <-> strip l <> "").
  { destruct (strip l); cbn; split; congruence. }
  rewrite He. tauto.
Qed.



(** ** C9: skills lines *)

Lemma contains_nonempty (p s : string) :
  is_empty p = false -> contains p s = true -> is_empty s = false.
Proof.
  destruct s; [|reflexivity]. destruct p; [discriminate|]. discriminate.
Qed.

(** C9: with a current section whose lower-case form holds
    [expertise], a line that holds two asterisks and that no earlier rule
    claims becomes a skills paragraph with normalized text.  A line
    [## Technical Expertise] sets that section, and under it the line
    [**Languages:** Go, Rust] is a skills line, not a body paragraph,
    whatever the header flag; no continuation loop absorbs it. *)
Theorem skills_line (lines : list string) (st : state) :
  (forall sec,
      current_section st = Some sec -> sec <> "" ->
      contains "expertise" (lower sec) = true ->
      contains "**" (line_at lines st) = true ->
      before_skills (is_header_done st) (line_at lines st) = false ->
      step lines st
      = emit (Paragraph (md_inline (line_at lines st)) styles.skills) 1 st)
  /\ (line_at lines st = "## Technical Expertise" ->
      current_section (step lines st) = Some "Technical Expertise")
  /\ (current_section st = Some "Technical Expertise" ->
      line_at lines st = "**Languages:** Go, Rust" ->
      step lines st
      = emit (Paragraph "<b>Languages:</b> Go, Rust" styles.skills) 1 st)
  /\ body_absorbs "**Languages:** Go, Rust" = false
  /\ bullet_absorbs "**Languages:** Go, Rust" = false
  /\ parse_resume_md expertise_doc
     = Some [Paragraph "TECHNICAL EXPERTISE" styles.section;
             Paragraph "<b>Languages:</b> Go, Rust" styles.skills]
  /\ kind_of (Paragraph "<b>Languages:</b> Go, Rust" styles.skills)
     = SkillsLine.
Proof.
  split; [|split; [|split]].
  - intros sec Hsec Hne Hex Hst Hb.
    assert (He : is_empty (line_at lines st) = false)
      by (eapply contains_nonempty; [|exact Hst]; reflexivity).
    unfold before_skills in Hb.
    apply orb_false_elim in Hb as [Hb Hc].
    apply orb_false_elim in Hb as [Hb Hu].
    rewrite (step_from_bullet lines st He Hb). cbv zeta.
    rewrite Hu, Hc, Hsec, Hst. unfold in_expertise. rewrite Hex.
    destruct sec; [congruence | reflexivity].
  - unfold line_at, step. cbv zeta. intros ->. reflexivity.
  - unfold line_at, step. cbv zeta. intros -> ->.
    destruct (is_header_done st); reflexivity.
  - repeat split; vm_compute; reflexivity.
Qed.

Lemma skills_line_witness :
  step ["**Cloud:** AWS & GCP"]
       {| i := 0; is_header_done := true;
          current_section := Some "Areas of Expertise"; story := [] |}
  = emit (Paragraph "<b>Cloud:</b> AWS &amp; GCP" styles.skills) 1
         {| i := 0; is_header_done := true;
            current_section := Some "Areas of Expertise"; story := [] |}.
Proof.
  apply (proj1 (skills_line ["**Cloud:** AWS & GCP"]
                  {| i := 0; is_header_done := true;
                     current_section := Some "Areas of Expertise";
                     story := [] |}) "Areas of Expertise").
  - reflexivity.
  - discriminate.
  - vm_compute; reflexivity.
  - vm_compute; reflexivity.
  - vm_compute; reflexivity.
Defined.

(** ** C10: blocks whose text is not normalized *)

Lemma upper_char_amp (c : ascii) :
  Ascii.eqb (upper_char c) "&" = Ascii.eqb c "&".
Proof. destruct c as [[] [] [] [] [] [] [] []]; reflexivity. Qed.

Lemma count_char_upper (s : string) :
  count_char "&" (upper s) = count_char "&" s.
Proof.
  induction s as [|c s IH]; [reflexivity|].
  cbn [upper map_string count_char]. fold (upper s).
  now rewrite upper_char_amp, IH.
Qed.

Section CountStrip.
Variables (p : ascii -> bool) (x : ascii).
Hypothesis kept : p x = false.

Lemma stripped_char_differs (c : ascii) :
  p c = true -> Ascii.eqb c x = false.
Proof.
  intros H. destruct (Ascii.eqb_spec c x); [congruence | reflexivity].
Qed.

Lemma count_char_lstrip_by (s : string) :
  count_char x (lstrip_by p s) = count_char x s.
Proof.
  induction s as [|c s IH]; [reflexivity|]. cbn [lstrip_by].
  destruct (p c) eqn:E; [|reflexivity].
  cbn [count_char]. now rewrite IH, (stripped_char_differs c E).
Qed.

Lemma count_char_rstrip_by (s : string) :
  count_char x (rstrip_by p s) = count_char x s.
Proof.
  induction s as [|c s IH]; [reflexivity|]. cbn [rstrip_by].
  destruct (p c) eqn:E; cbn [andb].
  - destruct (rstrip_by p s) eqn:Er; cbn [is_empty count_char] in *.
    + now rewrite <- IH, (stripped_char_differs c E).
    + now rewrite <- IH.
  - cbn [count_char]. now rewrite IH.
Qed.

Lemma count_char_strip_by (s : string) :
  count_char x (strip_by p s) = count_char x s.
Proof.
  unfold strip_by. now rewrite count_char_lstrip_by, count_char_rstrip_by.
Qed.
End CountStrip.

Lemma count_char_append (x : ascii) (a b : string) :
  count_char x (a ++ b) = count_char x a + count_char x b.
Proof.
  induction a as [|c a IH]; [reflexivity|]. cbn [append count_char].
  rewrite IH. lia.
Qed.

(** Padding the separators adds the two entities of each and nothing
    else. *)
Lemma count_amp_replace_pipe (s : string) :
  count_char "&" (replace_pipe s)
  = count_char "&" s + 2 * count_char "|" s.
Proof.
  induction s as [|c s IH]; [reflexivity|]. cbn [replace_pipe].
  destruct (Ascii.eqb c "|") eqn:E.
  - apply Ascii.eqb_eq in E; subst c.
    rewrite count_char_append, IH. cbn. lia.
  - cbn [count_char]. rewrite IH, E. lia.
Qed.

(** The section rule, for every line that starts with two hashes and a
    space. *)
Lemma step_section (lines : list string) (st : state) :
  startswith "## " (line_at lines st) = true ->
  step lines st
  = {| i := i st + 1; is_header_done := is_header_done st;
       current_section := Some (strip (drop 3 (line_at lines st)));
       story := story st
                ++ [Paragraph (upper (strip (drop 3 (line_at lines st))))
                              styles.section] |}.
Proof.
  unfold step, line_at. cbv zeta.
  destruct (rstrip (nth (i st) lines "")) as [|c1 [|c2 [|c3 l]]];
    cbn [startswith]; intros H; try discriminate;
    repeat (apply andb_prop in H as [? H]); try discriminate.
  repeat match goal with
         | E : Ascii.eqb _ _ = true |- _ => apply Ascii.eqb_eq in E
         end.
  subst. reflexivity.
Qed.

(** The shape of a line the italic-label pattern matches. *)
Lemma italic_line_shape (line : string) :
  italic_line_match line = true ->
  exists c l, line = String "*" (String c l) /\ Ascii.eqb c "*" = false.
Proof.
  unfold italic_line_match.
  destruct line as [|c1 [|c2 l]]; cbn [startswith drop span];
    intros H; apply andb_prop in H as [H1 H2]; try discriminate.
  apply andb_prop in H1 as [H1 _]. apply Ascii.eqb_eq in H1. subst c1.
  exists c2, l. split; [reflexivity|].
  unfold not_star in H2. destruct (Ascii.eqb c2 "*"); [|reflexivity].
  discriminate.
Qed.

(** The italic-label rule, for every line its pattern matches. *)
Lemma step_italic_label (lines : list string) (st : state) :
  italic_line_match (line_at lines st) = true ->
  step lines st
  = emit (Paragraph (strip (strip_stars (line_at lines st)))
                    styles.italic_label) 1 st.
Proof.
  intros H. destruct (italic_line_shape _ H) as (c & l & Hs & Hc).
  unfold step, line_at in *. cbv zeta. rewrite H. rewrite Hs.
  cbn [is_empty]. unfold is_rule, company_match, subtitle_match.
  cbn [startswith andb]. rewrite !(Ascii.eqb_sym _ c), Hc.
  replace (Ascii.eqb "*" "*") with true by reflexivity.
  replace (Ascii.eqb "-" "*") with false by reflexivity.
  replace (Ascii.eqb "#" "*") with false by reflexivity.
  cbn [andb]. destruct (is_header_done st); reflexivity.
Qed.

Lemma count_amp_after_hashes (line : string) :
  startswith "## " line = true ->
  count_char "&" (drop 3 line) = count_char "&" line.
Proof.
  destruct line as [|c1 [|c2 [|c3 l]]]; cbn [startswith]; intros H;
    try discriminate;
    repeat (apply andb_prop in H as [? H]); try discriminate.
  repeat match goal with
         | E : Ascii.eqb _ _ = true |- _ => apply Ascii.eqb_eq in E
         end.
  subst. reflexivity.
Qed.

(** C10, as stated, fails on a contact line: the ampersand inside a link
    target leaves with the target, so it does not reach the text, whose
    only ampersands open the two entities around the separator. *)
Lemma contact_link_target_amp_dropped :
  step [contact_amp_line] init
  = emit (Paragraph "a@b.c &nbsp;|&nbsp; City" styles.contact) 1 init
  /\ count_char "&" contact_amp_line = 1
  /\ strip_links contact_amp_line = "a@b.c | City"
  /\ count_char "&" (strip_links contact_amp_line) = 0.
Proof. repeat split; vm_compute; reflexivity. Qed.

(** C10, amended: section headers, italic labels and contact lines get
    their text without the inline normalizer.  A section header shows the
    upper-cased, stripped rest of the line and an italic label the line
    without its asterisks and outer blanks, each with every ampersand of
    the line and no more.  A contact line shows the line with each link
    replaced by its label and each separator padded: the ampersands of
    what is left of the line, plus the two entities per separator; where
    the line holds no link nothing is taken out of it. *)
Theorem unnormalized_blocks (lines : list string) (st : state) :
  let line := line_at lines st in
  (startswith "## " line = true ->
   step lines st
   = {| i := i st + 1; is_header_done := is_header_done st;
        current_section := Some (strip (drop 3 line));
        story := story st
                 ++ [Paragraph (upper (strip (drop 3 line)))
                               styles.section] |}
   /\ count_char "&" (upper (strip (drop 3 line))) = count_char "&" line)
  /\ (italic_line_match line = true ->
      step lines st
      = emit (Paragraph (strip (strip_stars line)) styles.italic_label) 1 st
      /\ count_char "&" (strip (strip_stars line)) = count_char "&" line)
  /\ (before_bullet (is_header_done st) line = false ->
      startswith "- " line = false ->
      contains "|" line = true -> contains "@" line = true ->
      step lines st
      = emit (Paragraph (replace_pipe (strip_links line)) styles.contact)
             1 st
      /\ count_char "&" (replace_pipe (strip_links line))
         = count_char "&" (strip_links line)
           + 2 * count_char "|" (strip_links line)
      /\ (has_link line = false -> strip_links line = line)).
Proof.
  intros line. split; [|split].
  - intros H. split; [apply step_section, H|].
    rewrite count_char_upper. unfold strip.
    rewrite count_char_strip_by by reflexivity.
    apply count_amp_after_hashes, H.
  - intros H. split; [apply step_italic_label, H|].
    unfold strip, strip_stars. now rewrite !count_char_strip_by.
  - intros Hb Hu Hp Ha.
    assert (He : is_empty line = false)
      by (eapply contains_nonempty; [|exact Hp]; reflexivity).
    split; [|split].
    + rewrite (step_from_bullet lines st He Hb). cbv zeta.
      fold line. now rewrite Hu, Hp, Ha.
    + apply count_amp_replace_pipe.
    + intros Hl. unfold strip_links, resub. now apply resub_no_match.
Qed.

Lemma unnormalized_blocks_witness :
  step ["## R&D *Lab*"] init
  = {| i := 1; is_header_done := false;
       current_section := Some "R&D *Lab*";
       story := [Paragraph "R&D *LAB*" styles.section] |}
  /\ step ["*Cost & Impact*"] init
     = emit (Paragraph "Cost & Impact" styles.italic_label) 1 init
  /\ step ["[me](http://m) | a@b.c | R&D"] init
     = emit (Paragraph "me &nbsp;|&nbsp; a@b.c &nbsp;|&nbsp; R&D"
                       styles.contact) 1 init
  /\ strip_links "a@b.c | R&D" = "a@b.c | R&D".
Proof.
  split; [|split; [|split]].
  - apply (proj1 (unnormalized_blocks ["## R&D *Lab*"] init)).
    vm_compute; reflexivity.
  - apply (proj1 (proj2 (unnormalized_blocks ["*Cost & Impact*"] init))).
    vm_compute; reflexivity.
  - apply (proj2 (proj2 (unnormalized_blocks
                           ["[me](http://m) | a@b.c | R&D"] init)));
      vm_compute; reflexivity.
  - apply (proj2 (proj2 (unnormalized_blocks ["a@b.c | R&D"] init)));
      vm_compute; reflexivity.
Defined.

(** ** C1: the missing-input gate *)

(** C1, as stated, fails in its second half: a path that exists and
    cannot be read as text passes the gate, and the run ends with the
    exception of the read, before any parsing; a text whose markup the
    constructor rejects is parsed and never rendered. *)
Lemma existing_path_not_parsed :
  path_exists directory_fs (input_md ["resume_to_pdf.py"; "docs"]) = true
  /\ main accepts_all quiet_build prints ["resume_to_pdf.py"; "docs"]
          directory_fs
     = {| files := directory_fs; trace := [ev_read_text "docs"];
          result := Raised |}
  /\ main rejects_crossing quiet_build prints ["resume_to_pdf.py"]
          {| path_exists := fun _ => true;
             read_text := fun _ => Some crossing_text |}
     = {| files := {| path_exists := fun _ => true;
                      read_text := fun _ => Some crossing_text |};
          trace := [ev_read_text "resume.md"; ev_parse crossing_text];
          result := Raised |}.
Proof. repeat split. Qed.

(** C1, amended: when the input path does not exist the run consists of
    one message on the error stream and ends with status 1, the file
    system untouched: nothing is read, parsed or built.  When the path
    exists the run passes the gate and is that of [generate_pdf] on the
    two paths: it starts by reading the input; if the read raises, the
    run ends there with that exception; if it returns, the text is
    parsed; if the parse raises, the run ends there, and if it returns,
    the story is handed to the renderer for the output path. *)
Theorem missing_input_gate
    (accepts : string -> styles.key -> bool)
    (doc_build : filesystem -> string -> list flowable -> filesystem * bool)
    (print_returns : string -> nat -> bool)
    (argv : list string) (fs : filesystem) :
  let r := main accepts doc_build print_returns argv fs in
  (path_exists fs (input_md argv) = false ->
   r = {| files := fs;
          trace := [ev_stderr ("Error: " ++ input_md argv ++ " not found"
                               ++ String newline "")];
          result := Exit 1 |})
  /\ (path_exists fs (input_md argv) = true ->
      r = generate_pdf accepts doc_build print_returns fs
            (input_md argv) (output_pdf argv)
      /\ firstn 1 (trace r) = [ev_read_text (input_md argv)]
      /\ (read_text fs (input_md argv) = None ->
          r = {| files := fs; trace := [ev_read_text (input_md argv)];
                 result := Raised |})
      /\ forall md_text,
           read_text fs (input_md argv) = Some md_text ->
           firstn 2 (trace r)
           = [ev_read_text (input_md argv); ev_parse md_text]
           /\ (parse_resume_md_raising accepts md_text = ValueError ->
               r = {| files := fs;
                      trace := [ev_read_text (input_md argv);
                                ev_parse md_text];
                      result := Raised |})
           /\ forall flowables,
                parse_resume_md_raising accepts md_text
                = Returned flowables ->
                firstn 3 (trace r)
                = [ev_read_text (input_md argv); ev_parse md_text;
                   ev_build (output_pdf argv) flowables]).
Proof.
  cbv zeta. unfold main. split; intros H; rewrite H; cbn [negb];
    [reflexivity|].
  split; [reflexivity|]. unfold generate_pdf.
  destruct (read_text fs (input_md argv)) as [md_text|] eqn:Er.
  - destruct (parse_resume_md_raising accepts md_text) as [story| |] eqn:Ep.
    + destruct (doc_build fs (output_pdf argv) story) as [fs' built].
      destruct (built && print_returns _ _);
        (split; [reflexivity|]); (split; [discriminate|]);
        intros t [= <-]; rewrite Ep; (split; [reflexivity|]);
        (split; [discriminate|]); now intros f [= <-].
    + split; [reflexivity|]. split; [discriminate|].
      intros t [= <-]. rewrite Ep. split; [reflexivity|].
      split; [reflexivity | discriminate].
    + split; [reflexivity|]. split; [discriminate|].
      intros t [= <-]. rewrite Ep. split; [reflexivity|].
      split; discriminate.
  - split; [reflexivity|]. split; [reflexivity | discriminate].
Qed.

Lemma missing_input_gate_witness :
  main accepts_all quiet_build prints
       ["resume_to_pdf.py"; "cv.md"; "cv.pdf"] one_file_fs
  = {| files := one_file_fs;
       trace := [ev_stderr ("Error: cv.md not found" ++ String newline "")];
       result := Exit 1 |}
  /\ main accepts_all quiet_build prints ["resume_to_pdf.py"] one_file_fs
     = generate_pdf accepts_all quiet_build prints one_file_fs
         "resume.md" "resume.pdf"
  /\ firstn 3 (trace (main accepts_all quiet_build prints
                           ["resume_to_pdf.py"] one_file_fs))
     = [ev_read_text "resume.md"; ev_parse "# Jane";
        ev_build "resume.pdf" [Paragraph "Jane" styles.name]].
Proof.
  split; [|split].
  - apply (proj1 (missing_input_gate accepts_all quiet_build prints
                    ["resume_to_pdf.py"; "cv.md"; "cv.pdf"] one_file_fs)).
    reflexivity.
  - apply (proj2 (missing_input_gate accepts_all quiet_build prints
                    ["resume_to_pdf.py"] one_file_fs)).
    reflexivity.
  - apply (proj2 (missing_input_gate accepts_all quiet_build prints
                    ["resume_to_pdf.py"] one_file_fs) eq_refl).
    + reflexivity.
    + vm_compute; reflexivity.
Defined.

(* ================================================================== *)
(** * Further properties of the inline normalizer *)

Lemma amps_escaped_escape_amp (s : string) :
  amps_escaped (escape_amp s) = true.
Proof.
  induction s as [|c s IH]; [reflexivity|]. cbn [escape_amp].
  destruct (Ascii.eqb c "&") eqn:Ec; cbn [andb].
  - destruct (entity_ahead s) eqn:Ee; cbn [negb].
    + cbn [amps_escaped]. now rewrite entity_ahead_escape_amp, Ee, orb_true_r.
    + cbn. exact IH.
  - cbn [amps_escaped]. now rewrite Ec.
Qed.

(** X1: whatever the text, no bare ampersand leaves the normalizer: each
    one is followed by [amp;], [lt;], [gt;], [quot;] or a hash. *)
Theorem md_inline_amps_escaped (text : string) :
  amps_escaped (md_inline text) = true.
Proof. unfold md_inline. apply amps_escaped_escape_amp. Qed.

Lemma all_chars_append (p : ascii -> bool) (a b : string) :
  all_chars p (a ++ b) = all_chars p a && all_chars p b.
Proof.
  induction a as [|c a IH]; [reflexivity|]. cbn [append all_chars].
  now rewrite IH, andb_assoc.
Qed.

Lemma all_chars_weaken (p q : ascii -> bool) (s : string) :
  (forall c, p c = true -> q c = true) ->
  all_chars p s = true -> all_chars q s = true.
Proof.
  intros Hpq. induction s as [|c s IH]; [reflexivity|]. cbn [all_chars].
  intros H. apply andb_prop in H as [H1 H2]. now rewrite (Hpq c H1), IH.
Qed.

(** A pattern whose first character [q] excludes matches nowhere in a
    text of [q] characters. *)
Lemma matches_in_excluded {G : Type} (at_ : string -> option (G * string))
    (q : ascii -> bool) (s : string) :
  (forall c s', q c = true -> at_ (String c s') = None) ->
  all_chars q s = true -> matches_in at_ s = false.
Proof.
  intros Hq. induction s as [|c s IH]; [reflexivity|]. cbn [all_chars].
  intros H. apply andb_prop in H as [H1 H2]. cbn [matches_in].
  now rewrite (Hq c s H1), IH.
Qed.

Lemma link_at_needs_bracket (c : ascii) (s : string) :
  negb (Ascii.eqb c "[") = true -> link_at' (String c s) = None.
Proof.
  intros H. apply negb_true_iff in H. unfold link_at', link_at.
  cbn [startswith]. now rewrite Ascii.eqb_sym, H.
Qed.

Lemma bold_at_needs_star (c : ascii) (s : string) :
  not_star c = true -> bold_at (String c s) = None.
Proof.
  unfold not_star. intros H. apply negb_true_iff in H. unfold bold_at.
  cbn [startswith]. now rewrite Ascii.eqb_sym, H.
Qed.

Lemma italic_at_needs_star (c : ascii) (s : string) :
  not_star c = true -> italic_at (String c s) = None.
Proof.
  unfold not_star. intros H. apply negb_true_iff in H. unfold italic_at.
  cbn [startswith]. now rewrite Ascii.eqb_sym, H.
Qed.

Lemma escape_amp_no_amp (s : string) :
  all_chars (fun c => negb (Ascii.eqb c "&")) s = true -> escape_amp s = s.
Proof.
  induction s as [|c s IH]; [reflexivity|]. cbn [all_chars escape_amp].
  intros H. apply andb_prop in H as [H1 H2]. apply negb_true_iff in H1.
  rewrite H1. cbn [andb]. now rewrite IH.
Qed.

Lemma plain_char_parts (c : ascii) :
  plain_char c = true ->
  not_star c = true /\ negb (Ascii.eqb c "[") = true
  /\ negb (Ascii.eqb c "&") = true.
Proof.
  unfold plain_char, not_star. intros H.
  apply andb_prop in H as [H H3]. apply andb_prop in H as [H1 H2]. auto.
Qed.

Lemma sub_link_no_bracket (s : string) :
  all_chars (fun c => negb (Ascii.eqb c "[")) s = true -> sub_link s = s.
Proof.
  intros H. unfold sub_link, resub. apply resub_no_match.
  apply (matches_in_excluded _ _ s link_at_needs_bracket H).
Qed.

Lemma sub_bold_no_star (s : string) :
  all_chars not_star s = true -> sub_bold s = s.
Proof.
  intros H. unfold sub_bold, resub. apply resub_no_match.
  apply (matches_in_excluded _ _ s bold_at_needs_star H).
Qed.

Lemma sub_italic_no_star (s : string) :
  all_chars not_star s = true -> sub_italic s = s.
Proof.
  intros H. unfold sub_italic, resub. apply resub_no_match.
  apply (matches_in_excluded _ _ s italic_at_needs_star H).
Qed.

(** X2: a text with no asterisk, no opening bracket and no ampersand is
    returned as it is. *)
Theorem md_inline_plain (text : string) :
  plain text = true -> md_inline text = text.
Proof.
  intros H. unfold md_inline.
  rewrite sub_link_no_bracket, sub_bold_no_star, sub_italic_no_star,
    escape_amp_no_amp; try reflexivity;
    (eapply all_chars_weaken; [|exact H]); intros c Hc;
    apply plain_char_parts in Hc; tauto.
Qed.

Lemma md_inline_plain_witness :
  md_inline "Senior Engineer, 2019 - 2024 (remote)"
  = "Senior Engineer, 2019 - 2024 (remote)".
Proof.
  apply (md_inline_plain "Senior Engineer, 2019 - 2024 (remote)").
  vm_compute; reflexivity.
Defined.

(** ** How the scans compose *)

Section ResubEquations.
Context {G : Type} (at_ : string -> option (G * string))
        (repl : G -> string).

Hypothesis at_shorter :
  forall s g r, at_ s = Some (g, r) -> length r < length s.

(** The scan, one position at a time. *)
Lemma resub_cons (c : ascii) (s : string) :
  resub at_ repl (String c s)
  = match at_ (String c s) with
    | Some (g, r) => repl g ++ resub at_ repl r
    | None => String c (resub at_ repl s)
    end.
Proof.
  unfold resub at 1. cbn [length resub_fuel].
  destruct (at_ (String c s)) as [[g r]|] eqn:E; [|reflexivity].
  apply at_shorter in E. cbn [length] in E.
  rewrite (resub_fuel_enough at_ repl at_shorter) by lia. reflexivity.
Qed.

(** The scan copies a stretch on which the pattern cannot start. *)
Lemma resub_skip (q : ascii -> bool) (pre s : string) :
  (forall c s', q c = true -> at_ (String c s') = None) ->
  all_chars q pre = true ->
  resub at_ repl (pre ++ s) = pre ++ resub at_ repl s.
Proof.
  intros Hq. induction pre as [|c pre IH]; [reflexivity|].
  cbn [all_chars append]. intros H. apply andb_prop in H as [H1 H2].
  now rewrite resub_cons, (Hq c _ H1), IH.
Qed.
End ResubEquations.

Lemma startswith_append_self (d s : string) : startswith d (d ++ s) = true.
Proof.
  induction d as [|a d IH]; [reflexivity|]. cbn [append startswith].
  now rewrite Ascii.eqb_refl, IH.
Qed.

Lemma drop_append_self (d s : string) : drop (length d) (d ++ s) = s.
Proof.
  induction d as [|a d IH]; cbn [length append drop]; [|exact IH].
  now destruct s.
Qed.

(** The lazy tail stops at the first closing marker after a group that
    holds neither the marker's first character nor a newline. *)
Lemma lazy_until_close (x : ascii) (d g post : string) :
  all_chars (fun c => negb (Ascii.eqb c x) && negb (Ascii.eqb c newline)) g
  = true ->
  lazy_until (String x d) (g ++ String x d ++ post) = Some (g, post).
Proof.
  change (String x d ++ post) with (String x (d ++ post)).
  induction g as [|c g IH]; intros H.
  - cbn [append lazy_until startswith length drop].
    now rewrite Ascii.eqb_refl, startswith_append_self, drop_append_self.
  - cbn [all_chars] in H. apply andb_prop in H as [H1 H2].
    apply andb_prop in H1 as [Hx Hn]. apply negb_true_iff in Hx, Hn.
    cbn [append lazy_until startswith].
    rewrite (Ascii.eqb_sym x c), Hx, Hn. cbn [andb]. now rewrite IH.
Qed.

(** The bold scan copies a stretch without asterisk, wraps the group of
    the first marker pair and goes on behind it. *)
Lemma sub_bold_wrap (pre g post : string) :
  all_chars not_star pre = true ->
  is_empty g = false -> all_chars group_char g = true ->
  sub_bold (pre ++ "**" ++ g ++ "**" ++ post)
  = pre ++ "<b>" ++ g ++ "</b>" ++ sub_bold post.
Proof.
  intros Hpre He Hg. unfold sub_bold.
  rewrite (resub_skip _ _ bold_at_shorter not_star)
    by (exact bold_at_needs_star || exact Hpre).
  f_equal. destruct g as [|c g]; [discriminate|].
  cbn [all_chars] in Hg. apply andb_prop in Hg as [Hc Hg].
  apply andb_prop in Hc as [_ Hn]. apply negb_true_iff in Hn.
  pose proof (lazy_until_close "*" "*" g post Hg) as E.
  cbn [append] in *. rewrite (resub_cons _ _ bold_at_shorter).
  unfold bold_at. cbn [startswith drop lazy_group andb].
  rewrite !Ascii.eqb_refl, Hn, E. cbn [andb]. unfold bold_repl.
  cbn [append]. now rewrite !append_assoc.
Qed.

(** The italic scan, likewise. *)
Lemma sub_italic_wrap (pre g post : string) :
  all_chars not_star pre = true ->
  is_empty g = false -> all_chars group_char g = true ->
  sub_italic (pre ++ "*" ++ g ++ "*" ++ post)
  = pre ++ "<i>" ++ g ++ "</i>" ++ sub_italic post.
Proof.
  intros Hpre He Hg. unfold sub_italic.
  rewrite (resub_skip _ _ italic_at_shorter not_star)
    by (exact italic_at_needs_star || exact Hpre).
  f_equal. destruct g as [|c g]; [discriminate|].
  cbn [all_chars] in Hg. apply andb_prop in Hg as [Hc Hg].
  apply andb_prop in Hc as [_ Hn]. apply negb_true_iff in Hn.
  pose proof (lazy_until_close "*" "" g post Hg) as E.
  cbn [append] in *. rewrite (resub_cons _ _ italic_at_shorter).
  unfold italic_at. cbn [startswith drop lazy_group andb].
  rewrite !Ascii.eqb_refl, Hn, E. cbn [andb]. unfold italic_repl.
  cbn [append]. now rewrite !append_assoc.
Qed.

(** A greedy negated class stops at the first excluded character. *)
Lemma span_stop (p : ascii -> bool) (a : string) (c : ascii) (s : string) :
  all_chars p a = true -> p c = false ->
  span p (a ++ String c s) = (a, String c s).
Proof.
  intros Ha Hc. induction a as [|x a IH]; cbn [append span].
  - now rewrite Hc.
  - cbn [all_chars] in Ha. apply andb_prop in Ha as [Hx Ha].
    now rewrite Hx, IH.
Qed.

(** The link scan copies a stretch without opening bracket, rewrites the
    first link and goes on behind it. *)
Lemma sub_link_wrap (pre label url post : string) :
  all_chars (fun c => negb (Ascii.eqb c "[")) pre = true ->
  is_empty label = false -> all_chars not_rbracket label = true ->
  is_empty url = false -> all_chars not_rparen url = true ->
  sub_link (pre ++ "[" ++ label ++ "](" ++ url ++ ")" ++ post)
  = pre ++ link_repl (label, url) ++ sub_link post.
Proof.
  intros Hpre Hl1 Hl2 Hu1 Hu2. unfold sub_link.
  rewrite (resub_skip _ _ link_at_shorter
             (fun c => negb (Ascii.eqb c "[")))
    by (exact link_at_needs_bracket || exact Hpre).
  f_equal. cbn [append]. rewrite (resub_cons _ _ link_at_shorter).
  unfold link_at', link_at. cbn [startswith drop andb].
  rewrite Ascii.eqb_refl.
  rewrite (span_stop not_rbracket label "]") by (exact Hl2 || reflexivity).
  rewrite Hl1. cbn [startswith drop andb]. rewrite !Ascii.eqb_refl.
  cbn [andb].
  rewrite (span_stop not_rparen url ")") by (exact Hu2 || reflexivity).
  rewrite Hu1. cbn [startswith drop andb]. rewrite Ascii.eqb_refl.
  reflexivity.
Qed.

Ltac chars :=
  unfold plain in *; rewrite ?all_chars_append; cbn [all_chars];
  repeat (apply andb_true_intro; split);
  try reflexivity;
  match goal with
  | H : all_chars _ ?s = true |- all_chars _ ?s = true =>
      eapply all_chars_weaken; [|exact H];
      let c := fresh "c" in
      let Hc := fresh "Hc" in
      intros c Hc;
      unfold plain_dot, plain_label, plain_target, plain_char, group_char,
        not_star, not_rbracket, not_rparen in *;
      repeat (apply andb_prop in Hc as [Hc ?]);
      repeat (apply andb_true_intro; split); assumption
  end.

(** X3: between plain stretches, a plain one-line phrase inside a pair
    of double asterisks comes out wrapped in bold markup, everything
    else as it was. *)
Theorem md_inline_bold (pre g post : string) :
  plain pre = true -> is_empty g = false ->
  all_chars plain_dot g = true -> plain post = true ->
  md_inline (pre ++ "**" ++ g ++ "**" ++ post)
  = pre ++ "<b>" ++ g ++ "</b>" ++ post.
Proof.
  intros Hpre He Hg Hpost. unfold md_inline.
  rewrite sub_link_no_bracket by chars.
  rewrite sub_bold_wrap by (exact He || chars).
  rewrite (sub_bold_no_star post) by chars.
  rewrite sub_italic_no_star by chars.
  apply escape_amp_no_amp. chars.
Qed.

Lemma md_inline_bold_witness :
  md_inline "Led the **platform team** (12 people)"
  = "Led the <b>platform team</b> (12 people)".
Proof.
  apply (md_inline_bold "Led the " "platform team" " (12 people)");
    vm_compute; reflexivity.
Defined.

(** The bold scan finds nothing in a text whose asterisks stand alone
    around a group. *)
Lemma sub_bold_single_stars (pre g post : string) :
  all_chars not_star pre = true ->
  is_empty g = false -> all_chars not_star g = true ->
  all_chars not_star post = true ->
  sub_bold (pre ++ "*" ++ g ++ "*" ++ post)
  = pre ++ "*" ++ g ++ "*" ++ post.
Proof.
  intros Hpre He Hg Hpost. unfold sub_bold.
  rewrite (resub_skip _ _ bold_at_shorter not_star)
    by (exact bold_at_needs_star || exact Hpre).
  f_equal. destruct g as [|c g]; [discriminate|].
  cbn [all_chars] in Hg. apply andb_prop in Hg as [Hc Hg].
  unfold not_star in Hc. apply negb_true_iff in Hc.
  cbn [append]. rewrite (resub_cons _ _ bold_at_shorter).
  unfold bold_at at 1. cbn [startswith andb].
  rewrite Ascii.eqb_refl, (Ascii.eqb_sym "*" c), Hc. cbn [andb]. f_equal.
  change (String c (g ++ String "*" post))
    with (String c g ++ String "*" post).
  rewrite (resub_skip _ _ bold_at_shorter not_star)
    by (exact bold_at_needs_star
        || (cbn [all_chars]; unfold not_star at 1; now rewrite Hc, Hg)).
  f_equal. rewrite (resub_cons _ _ bold_at_shorter).
  assert (Hb : bold_at (String "*" post) = None).
  { unfold bold_at. destruct post as [|d post]; [reflexivity|].
    cbn [all_chars] in Hpost. apply andb_prop in Hpost as [Hd _].
    unfold not_star in Hd. apply negb_true_iff in Hd.
    cbn [startswith]. now rewrite Ascii.eqb_refl, (Ascii.eqb_sym "*" d), Hd. }
  rewrite Hb. f_equal. now apply sub_bold_no_star.
Qed.

(** X4: between plain stretches, a plain one-line phrase inside a pair
    of single asterisks comes out wrapped in italic markup. *)
Theorem md_inline_italic (pre g post : string) :
  plain pre = true -> is_empty g = false ->
  all_chars plain_dot g = true -> plain post = true ->
  md_inline (pre ++ "*" ++ g ++ "*" ++ post)
  = pre ++ "<i>" ++ g ++ "</i>" ++ post.
Proof.
  intros Hpre He Hg Hpost. unfold md_inline.
  rewrite sub_link_no_bracket by chars.
  rewrite sub_bold_single_stars by (exact He || chars).
  rewrite sub_italic_wrap by (exact He || chars).
  rewrite (sub_italic_no_star post) by chars.
  apply escape_amp_no_amp. chars.
Qed.

Lemma md_inline_italic_witness :
  md_inline "see *Organizational Impact* below"
  = "see <i>Organizational Impact</i> below".
Proof.
  apply (md_inline_italic "see " "Organizational Impact" " below");
    vm_compute; reflexivity.
Defined.

(** X5: between plain stretches, a link with a plain label and a plain
    target comes out as an anchor to the target in the accent colour
    around the label. *)
Theorem md_inline_link (pre label url post : string) :
  plain pre = true ->
  is_empty label = false -> all_chars plain_label label = true ->
  is_empty url = false -> all_chars plain_target url = true ->
  plain post = true ->
  md_inline (pre ++ "[" ++ label ++ "](" ++ url ++ ")" ++ post)
  = pre ++ "<a href=" ++ String dquote url ++ String dquote " color="
    ++ String dquote "#2d6a8f" ++ String dquote ">" ++ label ++ "</a>"
    ++ post.
Proof.
  intros Hpre Hl1 Hl2 Hu1 Hu2 Hpost. unfold md_inline.
  rewrite sub_link_wrap by (exact Hl1 || exact Hu1 || chars).
  rewrite (sub_link_no_bracket post) by chars.
  unfold link_repl, THEME_accent.
  rewrite sub_bold_no_star by chars.
  rewrite sub_italic_no_star by chars.
  rewrite escape_amp_no_amp by chars.
  now rewrite !append_assoc.
Qed.

Lemma md_inline_link_witness :
  md_inline "code at [github.com/jane](https://github.com/jane)."
  = "code at <a href=" ++ String dquote "https://github.com/jane"
    ++ String dquote " color=" ++ String dquote "#2d6a8f"
    ++ String dquote ">github.com/jane</a>.".
Proof.
  apply (md_inline_link "code at " "github.com/jane"
           "https://github.com/jane" ".");
    vm_compute; reflexivity.
Defined.

(* ================================================================== *)
(** * Further properties of the classifier *)

(** A property that every iteration keeps holds when the loop ends. *)
Lemma loop_invariant (P : state -> Prop) (lines : list string) :
  (forall st, i st < List.length lines -> P st -> P (step lines st)) ->
  forall fuel st final,
    P st -> loop fuel lines st = Some final -> P final.
Proof.
  intros Hstep. induction fuel as [|fuel IH]; intros st final HP;
    cbn [loop]; destruct (i st <? List.length lines)%nat eqn:E;
    try discriminate; try (intros [= <-]; exact HP).
  apply Nat.ltb_lt in E. apply IH. now apply Hstep.
Qed.

(** The state the loop ends in, for a story [parse_resume_md] returns. *)
Lemma parse_resume_md_final (md_text : string) (flowables : list flowable) :
  parse_resume_md md_text = Some flowables ->
  exists final,
    loop (List.length (split_lines md_text)) (split_lines md_text) init
    = Some final
    /\ story final = flowables
    /\ i final = List.length (split_lines md_text).
Proof.
  unfold parse_resume_md. cbv zeta.
  destruct (loop_runs (List.length (split_lines md_text))
              (split_lines md_text) init)
    as (final & H1 & H2 & _); [simpl; lia .. |].
  rewrite H1. cbn. intros [= <-]. now exists final.
Qed.

(** What one iteration can append. *)
Lemma step_shape (lines : list string) (st : state) :
  step lines st = skip 1 st
  \/ (is_header_done st = false
      /\ story (step lines st) = (story st ++ [thick_hr])%list
      /\ is_header_done (step lines st) = true)
  \/ (is_header_done st = true /\ step lines st = emit hr 1 st)
  \/ exists t k,
       story (step lines st) = (story st ++ [Paragraph t k])%list
       /\ is_header_done (step lines st) = is_header_done st
       /\ (k = styles.subtitle -> is_header_done st = false).
Proof.
  step_cases;
    try (left; reflexivity);
    try (right; left; repeat split;
         match goal with
         | E : negb _ = true |- _ => now apply negb_true_iff in E
         end);
    try (right; right; left; split; [|reflexivity];
         match goal with
         | E : negb _ = false |- _ => now apply negb_false_iff in E
         end);
    right; right; right; do 2 eexists; repeat split;
      try reflexivity; try assumption; discriminate.
Qed.

(** ** The header region *)

Lemma header_invariant_step (lines : list string) (st : state) :
  header_inv st -> header_inv (step lines st).
Proof.
  unfold header_inv. intros Inv.
  destruct (step_shape lines st)
    as [-> | [(Hd & Hs & Hd') | [(Hd & ->) | (t & k & Hs & Hd' & Hk)]]].
  - exact Inv.
  - destruct Inv as [[_ Hno] | [Hc _]]; [|congruence].
    right. split; [exact Hd'|]. exists (story st), []. now rewrite Hs.
  - destruct Inv as [[Hc _] | (_ & pre & post & He & Hpre & Hpost)];
      [congruence|].
    right. split; [exact Hd|]. exists pre, (post ++ [hr])%list.
    cbn [emit story]. rewrite He, <- List.app_assoc. split; [reflexivity|].
    split; [exact Hpre|]. apply Forall_app. split; [exact Hpost|].
    now repeat constructor.
  - rewrite Hd', Hs.
    destruct Inv as [[Hd Hno] | (Hd & pre & post & He & Hpre & Hpost)].
    + left. split; [exact Hd|]. apply Forall_app. split; [exact Hno|].
      now repeat constructor.
    + right. split; [exact Hd|]. exists pre, (post ++ [Paragraph t k])%list.
      rewrite He, <- List.app_assoc. split; [reflexivity|].
      split; [exact Hpre|]. apply Forall_app. split; [exact Hpost|].
      repeat constructor. cbn. intros ->. specialize (Hk eq_refl).
      congruence.
Qed.

(** X6: a story holds no rule at all, or one thick rule with no rule
    before it; what follows the thick rule is thin rules and paragraphs,
    none of them a subtitle. *)
Theorem header_rule_structure (md_text : string)
    (flowables : list flowable) :
  parse_resume_md md_text = Some flowables ->
  Forall (fun f => is_hr f = false) flowables
  \/ exists pre post,
       flowables = (pre ++ thick_hr :: post)%list
       /\ Forall (fun f => is_hr f = false) pre
       /\ Forall after_header post.
Proof.
  intros H. destruct (parse_resume_md_final _ _ H) as (final & Hl & Hs & _).
  assert (Hinv : header_inv final).
  { eapply (loop_invariant header_inv); [| |exact Hl].
    - intros st _. apply header_invariant_step.
    - left. split; [reflexivity | constructor]. }
  destruct Hinv as [[_ Hno] | (_ & pre & post & He & Hpre & Hpost)].
  - left. now rewrite <- Hs.
  - right. exists pre, post. now rewrite <- Hs.
Qed.

Lemma header_rule_structure_witness :
  Forall (fun f => is_hr f = false) [Paragraph "Hello ---" styles.body]
  \/ exists pre post,
       [Paragraph "Hello ---" styles.body] = (pre ++ thick_hr :: post)%list
       /\ Forall (fun f => is_hr f = false) pre
       /\ Forall after_header post.
Proof.
  apply (header_rule_structure absorbed_rule_doc).
  vm_compute; reflexivity.
Defined.

(** ** Blank lines and the size of the story *)

Lemma firstn_succ_nth {A : Type} (d : A) (l : list A) :
  forall n, n < List.length l ->
            firstn (S n) l = (firstn n l ++ [nth n l d])%list.
Proof.
  induction l as [|x l IH]; intros n Hn; cbn [List.length] in Hn; [lia|].
  destruct n as [|n]; [reflexivity|].
  cbn [firstn nth app]. cbn [firstn] in IH. rewrite IH by lia. reflexivity.
Qed.

Lemma firstn_add_skipn {A : Type} (l : list A) :
  forall a n, firstn (a + n) l = (firstn a l ++ firstn n (skipn a l))%list.
Proof.
  induction l as [|x l IH]; intros a n.
  - now rewrite skipn_nil, !firstn_nil.
  - destruct a as [|a]; [reflexivity|].
    cbn [Nat.add firstn skipn app]. now rewrite IH.
Qed.

Lemma step_blank (lines : list string) (st : state) :
  is_blank (nth (i st) lines "") = true -> step lines st = skip 1 st.
Proof. unfold is_blank, step. cbv zeta. now intros ->. Qed.


(** What an iteration adds to the size of the story. *)
Lemma step_story_length (lines : list string) (st : state) :
  List.length (story (step lines st))
  = List.length (story st)
    + (if is_blank (nth (i st) lines "") then 0 else 1).
Proof.
  destruct (step_appends lines st) as [Hs Hl].
  now rewrite Hs, length_app, Hl.
Qed.



Lemma filter_firstn_mono {A : Type} (f : A -> bool) (l : list A) :
  forall n m, n <= m ->
    List.length (filter f (firstn n l))
    <= List.length (filter f (firstn m l)).
Proof.
  induction l as [|x l IH]; intros n m Hnm.
  - now rewrite !firstn_nil.
  - destruct n as [|n]; [cbn; lia|]. destruct m as [|m]; [lia|].
    cbn [firstn filter]. specialize (IH n m ltac:(lia)).
    destruct (f x); cbn [List.length]; lia.
Qed.

(** X8: the story has at most one flowable per line that is not blank:
    continuation lines add none. *)
Theorem story_length_bound (md_text : string) (flowables : list flowable) :
  parse_resume_md md_text = Some flowables ->
  List.length flowables <= count_nonblank (split_lines md_text).
Proof.
  intros H. destruct (parse_resume_md_final _ _ H) as (final & Hl & Hs & Hi).
  set (lines := split_lines md_text) in *.
  assert (Hinv : List.length (story final)
                 <= count_nonblank (firstn (i final) lines)).
  { eapply (loop_invariant
              (fun st => List.length (story st)
                         <= count_nonblank (firstn (i st) lines)));
      [| |exact Hl].
    - intros st Hlt IH. rewrite step_story_length.
      pose proof (step_advances lines st) as Ha.
      pose proof (filter_firstn_mono (fun l => negb (is_blank l)) lines
                    (S (i st)) (i (step lines st)) Ha) as Hm.
      unfold count_nonblank in *.
      rewrite (firstn_succ_nth "") in Hm by exact Hlt.
      rewrite filter_app, length_app in Hm. cbn [filter] in Hm.
      destruct (is_blank (nth (i st) lines "")); cbn in Hm; lia.
    - cbn. lia. }
  rewrite Hi, firstn_all, Hs in Hinv. exact Hinv.
Qed.

Lemma story_length_bound_witness :
  List.length [Paragraph "Jane Doe" styles.name;
               Paragraph "Engineer &amp; more" styles.body]
  <= count_nonblank (split_lines two_paragraph_doc).
Proof.
  apply (story_length_bound two_paragraph_doc). vm_compute; reflexivity.
Defined.

(** ** Section names *)

Lemma rstrip_by_idempotent (p : ascii -> bool) (s : string) :
  rstrip_by p (rstrip_by p s) = rstrip_by p s.
Proof.
  induction s as [|c s IH]; [reflexivity|]. cbn [rstrip_by].
  destruct (p c && is_empty (rstrip_by p s)) eqn:E; [reflexivity|].
  cbn [rstrip_by]. now rewrite IH, E.
Qed.

Lemma rstripped_tail (p : ascii -> bool) (c : ascii) (r : string) :
  rstrip_by p (String c r) = String c r ->
  rstrip_by p r = r /\ (r = "" -> p c = false).
Proof.
  cbn [rstrip_by].
  destruct (p c && is_empty (rstrip_by p r)) eqn:E; [discriminate|].
  intros [= Hr]. split; [exact Hr|]. intros ->. cbn in E.
  now rewrite andb_true_r in E.
Qed.

Lemma lstrip_rstripped (p : ascii -> bool) (s : string) :
  rstrip_by p s = s -> s <> "" -> lstrip_by p s <> "".
Proof.
  induction s as [|c s IH]; intros Hf Hne; [congruence|].
  apply rstripped_tail in Hf as [Hs Hc]. cbn [lstrip_by].
  destruct (p c) eqn:E; [|discriminate].
  apply IH; [exact Hs|]. intros ->. specialize (Hc eq_refl). congruence.
Qed.

(** Behind the marker of a trimmed section line stands a name. *)
Lemma section_name_nonempty (raw : string) :
  startswith "## " (rstrip raw) = true ->
  strip (drop 3 (rstrip raw)) <> "".
Proof.
  assert (Hf : rstrip (rstrip raw) = rstrip raw)
    by exact (rstrip_by_idempotent is_space raw).
  destruct (rstrip raw) as [|c1 [|c2 [|c3 rest]]]; cbn [startswith];
    intros H; try discriminate;
    repeat (apply andb_prop in H as [? H]); try discriminate.
  repeat match goal with
         | E : Ascii.eqb _ _ = true |- _ => apply Ascii.eqb_eq in E
         end.
  subst. unfold rstrip in Hf.
  apply rstripped_tail in Hf as [Hf _].
  apply rstripped_tail in Hf as [Hf _].
  apply rstripped_tail in Hf as [Hf Hc].
  cbn [drop]. unfold strip, strip_by. rewrite Hf.
  apply lstrip_rstripped; [exact Hf|]. intros E. now specialize (Hc E).
Qed.

Lemma upper_nonempty (s : string) : s <> "" -> upper s <> "".
Proof. destruct s; [congruence | discriminate]. Qed.

Ltac emitted_cases :=
  unfold emitted; step_cases; cbn [emit skip story];
  rewrite ?skipn_app, ?skipn_all, ?Nat.sub_diag; cbn [skipn app].

Lemma section_invariant_step (lines : list string) (st : state) :
  section_inv st -> section_inv (step lines st).
Proof.
  unfold section_inv. intros [Hc Hs].
  destruct (startswith "## " (line_at lines st)) eqn:E.
  - rewrite (step_section lines st E). cbn [current_section story].
    pose proof (section_name_nonempty _ E) as Hne.
    fold (line_at lines st) in Hne. split; [congruence|].
    apply Forall_app. split; [exact Hs|]. repeat constructor.
    intros [= Hu]. now apply (upper_nonempty _ Hne).
  - unfold line_at in E.
    step_cases; cbn [current_section story emit skip];
      try (split; [exact Hc|]); try exact Hs; try congruence;
      apply Forall_app; (split; [exact Hs|]); repeat constructor;
      discriminate.
Qed.

(** X9: a section paragraph never has an empty text: a line of two
    hashes with nothing but blanks behind them is no section header. *)
Theorem section_text_nonempty (md_text : string)
    (flowables : list flowable) :
  parse_resume_md md_text = Some flowables ->
  ~ In (Paragraph "" styles.section) flowables.
Proof.
  intros H. destruct (parse_resume_md_final _ _ H) as (final & Hl & Hs & _).
  assert (Hinv : section_inv final).
  { eapply (loop_invariant section_inv); [| |exact Hl].
    - intros st _. apply section_invariant_step.
    - split; [discriminate | constructor]. }
  destruct Hinv as [_ Hf]. rewrite Hs in Hf. rewrite Forall_forall in Hf.
  intros Hin. now apply (Hf _ Hin).
Qed.

Lemma section_text_nonempty_witness :
  ~ In (Paragraph "" styles.section)
       [Paragraph "##" styles.body;
        Paragraph "WORK & LIFE" styles.section].
Proof.
  apply (section_text_nonempty section_doc). vm_compute; reflexivity.
Defined.

(** ** Escaped paragraphs *)

Lemma step_emits_escaped (lines : list string) (st : state) :
  Forall escaped_text (emitted lines st).
Proof.
  emitted_cases; repeat constructor; cbn [escaped_text];
    try apply md_inline_amps_escaped;
    eexists; (split; [reflexivity | apply md_inline_amps_escaped]).
Qed.

(** X10: in a story, every title, subtitle, role, company, skills and
    body paragraph is free of bare ampersands, and every bullet paragraph
    is the glyph prefix followed by such a text. *)
Theorem story_escaped (md_text : string) (flowables : list flowable) :
  parse_resume_md md_text = Some flowables ->
  Forall escaped_text flowables.
Proof.
  intros H. destruct (parse_resume_md_final _ _ H) as (final & Hl & Hs & _).
  rewrite <- Hs.
  eapply (loop_invariant (fun st => Forall escaped_text (story st)));
    [| |exact Hl].
  - intros st _ IH. destruct (step_appends (split_lines md_text) st) as [E _].
    rewrite E. apply Forall_app. split; [exact IH|].
    apply step_emits_escaped.
  - constructor.
Qed.

Lemma story_escaped_witness :
  Forall escaped_text
         [Paragraph "Jane Doe" styles.name;
          Paragraph "Engineer &amp; more" styles.body].
Proof.
  apply (story_escaped two_paragraph_doc). vm_compute; reflexivity.
Defined.

(** ** Marked lines are never merged *)

Lemma startswith_rstrip_by (p : ascii -> bool) (m : string) :
  forall l, startswith m (rstrip_by p l) = true -> startswith m l = true.
Proof.
  induction m as [|a m IH]; intros l H; [reflexivity|].
  destruct l as [|c l]; [discriminate|]. cbn [rstrip_by] in H.
  destruct (p c && is_empty (rstrip_by p l)); [discriminate|].
  cbn [startswith] in *. apply andb_prop in H as [H1 H2].
  now rewrite H1, (IH l H2).
Qed.

(** Neither continuation loop absorbs a line that starts with a marker. *)
Lemma marker_not_absorbed (m : string) (k : styles.key) (l : string) :
  In (m, k) markers -> startswith m l = true ->
  bullet_absorbs l = false /\ body_absorbs l = false.
Proof.
  intros Hin H. unfold bullet_absorbs, body_absorbs.
  destruct l as [|c l]; [now destruct m|].
  assert (Hc : c = "#"%char /\ m <> "- " \/ c = "-"%char /\ m = "- ").
  { destruct Hin as [E | [E | [E | [E | []]]]]; injection E as <- _;
      cbn [startswith] in H; apply andb_prop in H as [H _];
      apply Ascii.eqb_eq in H; subst c;
      [left | left | left | right]; split; (reflexivity || discriminate). }
  destruct Hc as [[-> _] | [-> ->]]; cbn [startswith].
  - split; [reflexivity|]. now rewrite !andb_false_r.
  - split; [reflexivity|]. cbn [startswith] in H. rewrite H.
    now rewrite !andb_false_r.
Qed.

Lemma absorbed_unmarked (m : string) (k : styles.key) (l : string) :
  In (m, k) markers ->
  bullet_absorbs l = true \/ body_absorbs l = true ->
  startswith m (rstrip l) = false.
Proof.
  intros Hin Ha. destruct (startswith m (rstrip l)) eqn:E; [|reflexivity].
  apply startswith_rstrip_by in E.
  destruct (marker_not_absorbed m k l Hin E) as [H1 H2].
  destruct Ha; congruence.
Qed.

(** The lines a continuation loop absorbs all pass its test. *)
Lemma continuation_absorbed (absorbs : string -> bool)
    (rest : list string) :
  forall text,
    Forall (fun l => absorbs l = true)
           (firstn (snd (continuation absorbs rest text)) rest).
Proof.
  induction rest as [|l rest IH]; intros text; cbn [continuation].
  - constructor.
  - destruct (absorbs l) eqn:E; [|constructor].
    specialize (IH (text ++ " " ++ strip l)).
    destruct (continuation absorbs rest (text ++ " " ++ strip l)).
    cbn [snd firstn] in *. now constructor.
Qed.

(** The lines an iteration passes over behind its first line were
    absorbed by one of the two loops. *)
Lemma step_absorbed (lines : list string) (st : state) :
  Forall (fun l => bullet_absorbs l = true \/ body_absorbs l = true)
         (firstn (i (step lines st) - S (i st)) (skipn (S (i st)) lines)).
Proof.
  step_cases; cbn [emit skip i];
    try (replace (i st + 1 - S (i st)) with 0 by lia; constructor);
    match goal with
    | E : continuation ?f ?r ?t = (_, ?n) |- _ =>
        replace (i st + (n + 1) - S (i st)) with n by lia;
        pose proof (continuation_absorbed f r t) as Hc;
        rewrite E in Hc; cbn [snd] in Hc;
        eapply Forall_impl; [|exact Hc]; cbn beta; auto
    end.
Qed.

Lemma emitted_of_story (lines : list string) (st : state) (f : flowable) :
  story (step lines st) = (story st ++ [f])%list -> emitted lines st = [f].
Proof.
  intros H. unfold emitted.
  now rewrite H, skipn_app, skipn_all, Nat.sub_diag.
Qed.

Lemma step_title (lines : list string) (st : state) :
  startswith "# " (line_at lines st) = true ->
  step lines st
  = emit (Paragraph (md_inline (strip (drop 2 (line_at lines st))))
                    styles.name) 1 st.
Proof.
  unfold step, line_at. cbv zeta.
  destruct (rstrip (nth (i st) lines "")) as [|c1 [|c2 l]];
    cbn [startswith]; intros H; try discriminate;
    repeat (apply andb_prop in H as [? H]); try discriminate.
  repeat match goal with
         | E : Ascii.eqb _ _ = true |- _ => apply Ascii.eqb_eq in E
         end.
  subst. reflexivity.
Qed.

Lemma step_role (lines : list string) (st : state) :
  startswith "### " (line_at lines st) = true ->
  step lines st
  = emit (Paragraph (md_inline (strip (drop 4 (line_at lines st))))
                    styles.role) 1 st.
Proof.
  unfold step, line_at. cbv zeta.
  destruct (rstrip (nth (i st) lines "")) as [|c1 [|c2 [|c3 [|c4 l]]]];
    cbn [startswith]; intros H; try discriminate;
    repeat (apply andb_prop in H as [? H]); try discriminate.
  repeat match goal with
         | E : Ascii.eqb _ _ = true |- _ => apply Ascii.eqb_eq in E
         end.
  subst. reflexivity.
Qed.

Ltac unmarked_cases :=
  emitted_cases; try reflexivity; exfalso; unfold line_at in *;
  repeat match goal with
         | E : _ && _ = true |- _ => apply andb_prop in E as [? ?]
         end;
  congruence.

(** An iteration appends a paragraph of a marker's style exactly when
    its line starts with the marker. *)
Lemma step_marked (m : string) (k : styles.key)
    (lines : list string) (st : state) :
  In (m, k) markers ->
  count_style k (emitted lines st)
  = if startswith m (line_at lines st) then 1 else 0.
Proof.
  intros [E | [E | [E | [E | []]]]]; injection E as <- <-;
    match goal with
    | |- context [startswith ?m ?l] => destruct (startswith m l) eqn:Hm
    end.
  - rewrite (emitted_of_story lines st _
               (f_equal story (step_title lines st Hm))). reflexivity.
  - unmarked_cases.
  - rewrite (emitted_of_story lines st _
               (f_equal story (step_section lines st Hm))). reflexivity.
  - unmarked_cases.
  - rewrite (emitted_of_story lines st _
               (f_equal story (step_role lines st Hm))). reflexivity.
  - unmarked_cases.
  - destruct (bullet_line_first _ (is_header_done st) Hm) as [He Hg].
    pose proof (step_from_bullet lines st He Hg) as Hs. cbv zeta in Hs.
    rewrite Hm in Hs. destruct (continuation bullet_absorbs _ _) in Hs.
    rewrite (emitted_of_story lines st _ (f_equal story Hs)). reflexivity.
  - unmarked_cases.
Qed.

Lemma filter_none {A : Type} (f : A -> bool) (l : list A) :
  Forall (fun x => f x = false) l -> filter f l = [].
Proof.
  induction 1 as [|x l Hx _ IH]; [reflexivity|]. cbn [filter].
  now rewrite Hx.
Qed.

Lemma marked_count_step (m : string) (k : styles.key)
    (lines : list string) (st : state) :
  In (m, k) markers -> i st < List.length lines ->
  count_style k (story st) = count_marked m (firstn (i st) lines) ->
  count_style k (story (step lines st))
  = count_marked m (firstn (i (step lines st)) lines).
Proof.
  intros Hin Hlt IH.
  destruct (step_appends lines st) as [Hs _].
  pose proof (step_advances lines st) as Ha.
  pose proof (step_absorbed lines st) as Hab.
  remember (i (step lines st) - S (i st)) as d eqn:Hd.
  replace (i (step lines st)) with (S (i st) + d) by lia.
  rewrite firstn_add_skipn, (firstn_succ_nth "") by exact Hlt.
  unfold count_style, count_marked in *.
  rewrite Hs, !filter_app, !length_app, IH.
  rewrite (filter_none _ (firstn _ (skipn _ _))).
  - fold (count_style k (emitted lines st)).
    rewrite (step_marked m k lines st Hin). unfold line_at.
    cbn [filter]. destruct (startswith m _); cbn; lia.
  - eapply Forall_impl; [|exact Hab]. intros l.
    apply (absorbed_unmarked m k l Hin).
Qed.

(** X11: no header and no bullet is lost or merged: the story has as
    many title, section, role and bullet paragraphs as the text has
    lines whose trimmed form starts with one hash, two hashes, three
    hashes, or a hyphen, each followed by a space. *)
Theorem marked_lines_counted (md_text : string)
    (flowables : list flowable) :
  parse_resume_md md_text = Some flowables ->
  forall m k,
    In (m, k) markers ->
    count_style k flowables = count_marked m (split_lines md_text).
Proof.
  intros H m k Hin.
  destruct (parse_resume_md_final _ _ H) as (final & Hl & Hs & Hi).
  set (lines := split_lines md_text) in *.
  assert (Hinv : count_style k (story final)
                 = count_marked m (firstn (i final) lines)).
  { eapply (loop_invariant
              (fun st => count_style k (story st)
                         = count_marked m (firstn (i st) lines)));
      [| |exact Hl].
    - intros st Hlt IH. now apply marked_count_step.
    - reflexivity. }
  now rewrite Hi, firstn_all, Hs in Hinv.
Qed.

Lemma marked_lines_counted_witness :
  count_style styles.bullet
    [Paragraph "Jane" styles.name; Paragraph "WORK" styles.section;
     Paragraph "Lead" styles.role;
     Paragraph "&#8226; &nbsp;one more" styles.bullet;
     Paragraph "&#8226; &nbsp;two" styles.bullet;
     Paragraph "text - three" styles.body]
  = count_marked "- " (split_lines marker_doc).
Proof.
  apply (marked_lines_counted marker_doc).
  - vm_compute; reflexivity.
  - right. right. right. left. reflexivity.
Defined.

(* ================================================================== *)
(** * The style table *)

(** X14: [build_styles] meets no missing theme key, and the table it
    returns binds the ten keys the parser looks up, each to a style whose
    leading exceeds its font size and whose font comes from the theme. *)
Theorem build_styles_complete :
  exists table,
    build_styles = Some table
    /\ forall k : styles.key,
         exists sty,
           lookup (key_name k) table = Some sty
           /\ fontSize sty < leading sty
           /\ from_theme (fontName sty).
Proof.
  eexists. split; [vm_compute; reflexivity|].
  intros k; destruct k; eexists; cbn;
    (split; [reflexivity|]); (split; [cbn; lia|]);
    first [ now exists "font" | now exists "font_bold"
          | now exists "font_italic" ].
Qed.

(* ================================================================== *)
(** * Rule lines and trailing newlines *)

Lemma split_lines_nonempty (s : string) : split_lines s <> [].
Proof.
  induction s as [|c s IH]; cbn [split_lines]; [discriminate|].
  destruct (Ascii.eqb c newline); [discriminate|].
  destruct (split_lines s); [congruence | discriminate].
Qed.

Lemma split_lines_trailing_newline (s : string) :
  split_lines (s ++ String newline "") = (split_lines s ++ [""])%list.
Proof.
  induction s as [|c s IH]; [reflexivity|]. cbn [append split_lines].
  rewrite IH. destruct (Ascii.eqb c newline); [reflexivity|].
  pose proof (split_lines_nonempty s).
  destruct (split_lines s); [congruence | reflexivity].
Qed.

Lemma continuation_app_blank (absorbs : string -> bool)
    (rest : list string) :
  absorbs "" = false ->
  forall text,
    continuation absorbs (rest ++ [""]) text = continuation absorbs rest text.
Proof.
  intros Hb. induction rest as [|l rest IH]; intros text;
    cbn [app continuation].
  - now rewrite Hb.
  - destruct (absorbs l); [|reflexivity]. now rewrite IH.
Qed.

(** A blank line appended behind the last one changes no iteration. *)
Lemma step_app_blank (lines : list string) (st : state) :
  i st < List.length lines -> step (lines ++ [""]) st = step lines st.
Proof.
  intros H. unfold step.
  rewrite app_nth1, skipn_app by lia.
  replace (S (i st) - List.length lines) with 0 by lia. cbn [skipn].
  now rewrite !continuation_app_blank by reflexivity.
Qed.

Lemma loop_app_blank (lines : list string) :
  forall fuel st final,
    i st <= List.length lines ->
    loop fuel lines st = Some final ->
    loop (S fuel) (lines ++ [""]) st = Some (skip 1 final).
Proof.
  induction fuel as [|fuel IH]; intros st final Hle H;
    cbn [loop] in H; destruct (i st <? List.length lines)%nat eqn:E;
    try discriminate.
  - injection H as <-. apply Nat.ltb_ge in E.
    assert (Hi : i st = List.length lines) by lia.
    cbn [loop]. rewrite length_app. cbn [List.length].
    replace (i st <? List.length lines + 1)%nat with true
      by (symmetry; apply Nat.ltb_lt; lia).
    rewrite step_blank
      by (rewrite Hi, nth_middle; reflexivity).
    cbn [skip i].
    replace (i st + 1 <? List.length lines + 1)%nat with false
      by (symmetry; apply Nat.ltb_ge; lia).
    reflexivity.
  - apply Nat.ltb_lt in E. pose proof (step_in_bounds lines st E) as Hb.
    specialize (IH _ _ Hb H).
    change (loop (S (S fuel)) (lines ++ [""]) st)
      with (if (i st <? List.length (lines ++ [""]))%nat
            then loop (S fuel) (lines ++ [""]) (step (lines ++ [""]) st)
            else Some st).
    rewrite length_app. cbn [List.length].
    replace (i st <? List.length lines + 1)%nat with true
      by (symmetry; apply Nat.ltb_lt; lia).
    now rewrite step_app_blank.
  - injection H as <-. apply Nat.ltb_ge in E.
    assert (Hi : i st = List.length lines) by lia.
    change (loop (S (S fuel)) (lines ++ [""]) st)
      with (if (i st <? List.length (lines ++ [""]))%nat
            then loop (S fuel) (lines ++ [""]) (step (lines ++ [""]) st)
            else Some st).
    rewrite length_app. cbn [List.length].
    replace (i st <? List.length lines + 1)%nat with true
      by (symmetry; apply Nat.ltb_lt; lia).
    rewrite step_blank
      by (rewrite Hi, nth_middle; reflexivity).
    cbn [loop skip i]. rewrite length_app. cbn [List.length].
    replace (i st + 1 <? List.length lines + 1)%nat with false
      by (symmetry; apply Nat.ltb_ge; lia).
    reflexivity.
Qed.

(** X15: a newline at the end of the text changes nothing: the story is
    the one of the text without it. *)
Theorem trailing_newline_ignored (md_text : string) :
  parse_resume_md (md_text ++ String newline "") = parse_resume_md md_text.
Proof.
  unfold parse_resume_md. cbv zeta. rewrite split_lines_trailing_newline.
  set (lines := split_lines md_text).
  destruct (loop_runs (List.length lines) lines init)
    as (final & H1 & _); [simpl; lia .. |].
  rewrite H1, length_app. cbn [List.length]. rewrite Nat.add_1_r.
  rewrite (loop_app_blank lines _ init final); [reflexivity | simpl; lia |].
  exact H1.
Qed.

Lemma Forall_firstn_skipn {A : Type} (P : A -> Prop) (l : list A)
    (a d : nat) :
  Forall P l -> Forall P (firstn d (skipn a l)).
Proof.
  intros H. rewrite <- (firstn_skipn a l) in H.
  apply Forall_app in H as [_ H].
  rewrite <- (firstn_skipn d (skipn a l)) in H.
  now apply Forall_app in H as [H _].
Qed.

(** An iteration appends a rule exactly when its line is a rule line. *)
Lemma step_rule_count (lines : list string) (st : state) :
  List.length (filter is_hr (emitted lines st))
  = if is_rule (line_at lines st) then 1 else 0.
Proof.
  destruct (is_rule (line_at lines st)) eqn:Hm.
  - rewrite (emitted_of_story lines st _
               (f_equal story (step_rule_line lines st Hm))).
    now destruct (is_header_done st).
  - unmarked_cases.
Qed.

(** A line that is a rule line as it stands or not at all is absorbed
    by no continuation loop when it is one. *)
Lemma absorbed_not_rule (l : string) :
  (is_rule (rstrip l) = true -> is_rule l = true) ->
  bullet_absorbs l = true \/ body_absorbs l = true ->
  is_rule (rstrip l) = false.
Proof.
  intros Hc Ha. destruct (is_rule (rstrip l)) eqn:E; [|reflexivity].
  specialize (Hc eq_refl). destruct Ha as [Ha | Ha].
  - unfold bullet_absorbs in Ha. apply andb_prop in Ha as [Ha _].
    destruct l as [|c l]; [discriminate|]. cbn [startswith] in Ha.
    apply andb_prop in Ha as [Ha _]. apply Ascii.eqb_eq in Ha. subst c.
    discriminate.
  - apply body_absorbs_iff in Ha. destruct Ha as (_ & _ & _ & Ha & _).
    congruence.
Qed.

(** X16: when no rule line of the text carries trailing white space,
    every rule line gives a rule: the story has as many rules as the
    text has rule lines. *)
Theorem rule_lines_counted (md_text : string) (flowables : list flowable) :
  parse_resume_md md_text = Some flowables ->
  Forall (fun l => is_rule (rstrip l) = true -> is_rule l = true)
         (split_lines md_text) ->
  List.length (filter is_hr flowables)
  = count_rule_lines (split_lines md_text).
Proof.
  intros H Hclean.
  destruct (parse_resume_md_final _ _ H) as (final & Hl & Hs & Hi).
  set (lines := split_lines md_text) in *.
  assert (Hinv : List.length (filter is_hr (story final))
                 = count_rule_lines (firstn (i final) lines)).
  { eapply (loop_invariant
              (fun st => List.length (filter is_hr (story st))
                         = count_rule_lines (firstn (i st) lines)));
      [| |exact Hl]; [|reflexivity].
    intros st Hlt IH.
    destruct (step_appends lines st) as [Ea _].
    pose proof (step_advances lines st) as Ha.
    pose proof (step_absorbed lines st) as Hab.
    remember (i (step lines st) - S (i st)) as d eqn:Hd.
    replace (i (step lines st)) with (S (i st) + d) by lia.
    rewrite firstn_add_skipn, (firstn_succ_nth "") by exact Hlt.
    unfold count_rule_lines in *.
    rewrite Ea, !filter_app, !length_app, IH, step_rule_count.
    rewrite (filter_none _ (firstn _ (skipn _ _))).
    - unfold line_at. cbn [filter].
      destruct (is_rule _); cbn; lia.
    - pose proof (Forall_firstn_skipn _ lines (S (i st)) d Hclean) as Hc.
      rewrite Forall_forall in *. intros l Hin.
      apply absorbed_not_rule; [apply Hc, Hin | apply Hab, Hin]. }
  now rewrite Hi, firstn_all, Hs in Hinv.
Qed.

Lemma rule_lines_counted_witness :
  List.length
    (filter is_hr
       [Paragraph "Jane" styles.name; thick_hr;
        Paragraph "text" styles.body; hr;
        Paragraph "&#8226; &nbsp;item" styles.bullet; hr])
  = count_rule_lines (split_lines rules_doc).
Proof.
  apply (rule_lines_counted rules_doc).
  - vm_compute; reflexivity.
  - repeat constructor; vm_compute; try reflexivity; discriminate.
Defined.
